(** * Mount execution, mount propagation and mount pods of the kubelet

    A shallow embedding of the volume-mount core of the repository:

    - [pkg/util/mount/mount_linux.go]: [Mounter.Mount], [isBind],
      [doMount], [makeMountArgs], [listProcMounts], [readProcMountsFrom],
      [formatAndMount], [getDiskFormat], [isShared], [getMountInfo],
      [parseMountInfo], [doMakeShared];
    - [pkg/util/mount/exec_mount.go]: [execMounter.Mount], [doExecMount];
    - the kubelet volume host: [GetVolumePluginSocketPath];
    - [pkg/volume/mount_pod.go]: [mountPodManager].

    Go strings are byte strings ([string]); Go's [int] and [uint32] are
    [Z] with the wrap-around written out; commands, file reads and log
    lines are effects of a state monad over an abstract world. *)

From Stdlib Require Import ZArith Lia Ascii String.
From stdpp Require Import gmap strings list.

Open Scope string_scope.
Open Scope list_scope.
Open Scope Z_scope.

(** ** The parts of Go's standard library that the code calls *)

Module GoStrings.

(** The newline byte, ['\n']. *)
Definition LF : ascii := ascii_of_nat 10.

Definition nl : string := String LF "".

(** [len(s)] *)
Definition len (s : string) : Z := Z.of_nat (String.length s).

(** [strings.HasPrefix(s, prefix)] *)
Definition HasPrefix (s prefix : string) : bool := String.prefix prefix s.

(** The [asciiSpace] table of package [strings]: tab, line feed,
    vertical tab, form feed, carriage return and space.  The kernel
    writes mount tables in ASCII (other bytes are octal-escaped), so the
    two-byte encodings of U+0085 and U+00A0 are not treated as spaces. *)
Definition isSpace (c : ascii) : bool :=
  let n := nat_of_ascii c in
  (Nat.eqb n 32 || (Nat.leb 9 n && Nat.leb n 13))%bool.

Fixpoint Fields_from (cur : string) (s : string) : list string :=
  match s with
  | EmptyString => if String.eqb cur "" then [] else [cur]
  | String c s' =>
      if isSpace c
      then (if String.eqb cur "" then Fields_from "" s'
            else cur :: Fields_from "" s')
      else Fields_from (cur +:+ String c "") s'
  end.

(** [strings.Fields(s)] *)
Definition Fields (s : string) : list string := Fields_from "" s.

(** [strings.Split(s, sep)] for a one-byte separator: one more piece
    than there are separators. *)
Fixpoint Split (s : string) (sep : ascii) : list string :=
  match s with
  | EmptyString => [""]
  | String c s' =>
      if Ascii.eqb c sep then "" :: Split s' sep
      else match Split s' sep with
           | h :: t => String c h :: t
           | [] => [String c ""]
           end
  end.

(** [strings.Join(elems, sep)] *)
Definition Join (elems : list string) (sep : string) : string :=
  String.concat sep elems.

(** [strings.Replace(s, old, new, -1)] for one-byte [old] and [new]. *)
Fixpoint ReplaceAll (s : string) (old new : ascii) : string :=
  match s with
  | EmptyString => EmptyString
  | String c s' =>
      String (if Ascii.eqb c old then new else c) (ReplaceAll s' old new)
  end.

(** [strings.TrimSuffix(s, "\n")] *)
Fixpoint TrimSuffixLF (s : string) : string :=
  match s with
  | EmptyString => EmptyString
  | String c EmptyString => if Ascii.eqb c LF then EmptyString else s
  | String c s' => String c (TrimSuffixLF s')
  end.

(** The loop [for { line, err := r.ReadString('\n'); if err == io.EOF
    { break }; ... }] over a [bufio.Reader]: every line comes with its
    terminating newline, and whatever follows the last newline is
    dropped with the [io.EOF]. *)
Fixpoint readLines_from (cur : string) (s : string) : list string :=
  match s with
  | EmptyString => []
  | String c s' =>
      if Ascii.eqb c LF
      then (cur +:+ nl) :: readLines_from "" s'
      else readLines_from (cur +:+ String c "") s'
  end.

Definition readLines (s : string) : list string := readLines_from "" s.

Definition digit (c : ascii) : option Z :=
  let n := Z.of_nat (nat_of_ascii c) in
  if ((48 <=? n) && (n <=? 57))%bool then Some (n - 48) else None.

Fixpoint parseDigits (acc : Z) (s : string) : option Z :=
  match s with
  | EmptyString => Some acc
  | String c s' =>
      match digit c with
      | Some d => parseDigits (acc * 10 + d) s'
      | None => None
      end
  end.

(** [strconv.Atoi(s)] on a 64-bit platform: an optional sign, at least
    one decimal digit, and the value within [int]; [None] is the
    [*strconv.NumError]. *)
Definition Atoi (s : string) : option Z :=
  match s with
  | EmptyString => None
  | String c s' =>
      let neg := Ascii.eqb c "-"%char in
      let body := if (neg || Ascii.eqb c "+"%char)%bool then s' else s in
      match body with
      | EmptyString => None
      | _ =>
          match parseDigits 0 body with
          | Some n =>
              let v := if neg then - n else n in
              if ((- 2 ^ 63 <=? v) && (v <=? 2 ^ 63 - 1))%bool
              then Some v else None
          | None => None
          end
      end
  end.

End GoStrings.

Module GoPath.
Import GoStrings.

(** One path element against the elements kept so far (innermost
    first), as [path.Clean] treats it: empty and [.] elements vanish, a
    [..] removes the element before it, is dropped at the root, and is
    kept at the start of a relative path. *)
Definition clean_elem (rooted : bool) (kept : list string) (e : string)
  : list string :=
  if (String.eqb e "" || String.eqb e ".")%bool then kept
  else if String.eqb e ".." then
    match kept with
    | k :: rest => if String.eqb k ".." then e :: kept else rest
    | [] => if rooted then [] else [e]
    end
  else e :: kept.

(** [path.Clean(p)] *)
Definition Clean (p : string) : string :=
  if String.eqb p "" then "."
  else
    let rooted := HasPrefix p "/" in
    let kept := fold_left (clean_elem rooted) (Split p "/"%char) [] in
    let body := Join (rev kept) "/" in
    if rooted then "/" +:+ body
    else if String.eqb body "" then "." else body.

Fixpoint dropEmpty (elem : list string) : list string :=
  match elem with
  | [] => []
  | e :: rest => if String.eqb e "" then dropEmpty rest else elem
  end.

(** [path.Join(elem...)]: the elements from the first non-empty one on,
    joined by slashes and cleaned; the empty string if all are empty. *)
Definition Join (elem : list string) : string :=
  match dropEmpty elem with
  | [] => ""
  | rest => Clean (GoStrings.Join rest "/")
  end.

End GoPath.

(** [hash/fnv]: the 32-bit FNV-1a hash, a [uint32] kept in [Z]. *)
Module Fnv.

Definition offset32 : Z := 2166136261.
Definition prime32 : Z := 16777619.

Definition writeByte (h : Z) (c : ascii) : Z :=
  (Z.lxor h (Z.of_nat (nat_of_ascii c)) * prime32) mod 2 ^ 32.

(** [fmt.Fprintf(hash, "%s", s)] on a hash in state [h]. *)
Fixpoint write (h : Z) (s : string) : Z :=
  match s with
  | EmptyString => h
  | String c s' => write (writeByte h c) s'
  end.

End Fnv.

(** ** Errors, effects and the world outside the process *)

(** A Go [error] value as this code makes and inspects it:
    [utilexec.ErrExecutableNotFound]; a [utilexec.ExitError] with its
    [ExitStatus()]; any other error of the operating system or of a
    library; and [fmt.Errorf(format, args...)]. *)
Inductive error : Type :=
| ErrExecutableNotFound
| ExitError (status : Z)
| ErrOther (msg : string)
| Errorf (format : string) (args : list fmtarg)
with fmtarg : Type :=
| FStr (s : string)
| FStrs (l : list string)
| FInt (n : Z)
| FErr (e : error).

Inductive result (A : Type) : Type :=
| Ok (a : A)
| Err (e : error).
Arguments Ok {A} a.
Arguments Err {A} e.

(** Who runs an external command:
    [exec.Command(cmd, args...).CombinedOutput()];
    [execMounter.exec.Run(cmd, args, timeout)] with its [time.Duration];
    [SafeFormatAndMount.Exec.Run(cmd, args)]. *)
Inductive runner : Type :=
| OsExec
| MountExec (timeout : Z)
| SafeExec.

(** The severities of [glog]; [V level] is [glog.V(level).Infof]. *)
Inductive severity : Type :=
| Info | Warning | Error | V (level : Z).

(** What the code does to the outside, in the order it does it: a log
    line (its format string), an external command, a call of the
    [Interface.Mount] behind [SafeFormatAndMount], and the opening and
    reading of a file. *)
Inductive event : Type :=
| EvLog (sev : severity) (format : string)
| EvRun (via : runner) (cmd : string) (args : list string)
| EvMount (source target fstype : string) (options : list string)
| EvOpen (filename : string).

(** The outside world: how commands, the mounter behind
    [SafeFormatAndMount] and file reads answer, each answer free to depend
    on everything that happened before. *)
Record Env : Type := {
  World : Type;
  command : runner -> string -> list string -> World
            -> (string * option error) * World;
  mountOp : string -> string -> string -> list string -> World
            -> option error * World;
  readFile : string -> World -> result string * World
}.

Section Effects.
Context {E : Env}.

Definition state : Type := World E * list event.

Definition M (A : Type) : Type := state -> A * state.

Definition ret {A} (a : A) : M A := fun st => (a, st).

Definition bind {A B} (m : M A) (k : A -> M B) : M B :=
  fun st => let (a, st') := m st in k a st'.

Definition emit (e : event) : M unit :=
  fun st => (tt, (fst st, snd st ++ [e])).

Definition glog (sev : severity) (format : string) : M unit :=
  emit (EvLog sev format).

Definition runCommand (via : runner) (cmd : string) (args : list string)
  : M (string * option error) :=
  fun st =>
    let (r, w) := command E via cmd args (fst st) in
    (r, (w, snd st ++ [EvRun via cmd args])).

Definition interfaceMount (source target fstype : string)
           (options : list string) : M (option error) :=
  fun st =>
    let (r, w) := mountOp E source target fstype options (fst st) in
    (r, (w, snd st ++ [EvMount source target fstype options])).

Definition openAndRead (filename : string) : M (result string) :=
  fun st =>
    let (r, w) := readFile E filename (fst st) in
    (r, (w, snd st ++ [EvOpen filename])).

End Effects.

Arguments state : clear implicits.
Arguments M : clear implicits.

Declare Scope go_scope.
Delimit Scope go_scope with go.
Notation "'do' x <- m ; k" := (bind m (fun x => k))
  (at level 10, x name, m at level 100, k at level 200) : go_scope.
Notation "'do' ' pat <- m ; k" := (bind m (fun x => match x with pat => k end))
  (at level 10, pat pattern, m at level 100, k at level 200) : go_scope.
Notation "'exec' m ; k" := (bind m (fun _ => k))
  (at level 10, m at level 100, k at level 200) : go_scope.
Open Scope go_scope.

(** ** [pkg/util/mount]: the mount executor *)

Module Mount.
Import GoStrings.

(** How many times to retry for a consistent read of /proc/mounts. *)
Definition maxListTries : nat := 3.
(** Number of fields per line in /proc/mounts. *)
Definition expectedNumFieldsPerLine : nat := 6.
Definition procMountsPath : string := "/proc/mounts".
Definition procMountInfoPath : string := "/proc/self/mountinfo".

(** 'fsck' found errors and corrected them *)
Definition fsckErrorsCorrected : Z := 1.
(** 'fsck' found errors but exited without correcting them *)
Definition fsckErrorsUncorrected : Z := 4.

(** Modelled from the spec: the constant [defaultMountCommand] is
    declared in a file of the package that is not among the sources; the
    local implementation "executes mount(8)/umount(8) directly". *)
Definition defaultMountCommand : string := "mount".

(** [5 * time.Minute], a [time.Duration] in nanoseconds. *)
Definition defaultExecTimeout : Z := 5 * (60 * 1000000000).

Record MountPoint : Type := {
  Device : string;
  Path : string;
  Type_ : string;
  Opts : list string;
  Freq : Z;
  Pass : Z
}.

(** [optional] is the list of "optional parameters"; mount propagation
    is one of them. *)
Record mountInfo : Type := {
  root : string;
  mountPoint : string;
  optional : list string
}.

#[global] Instance mountInfo_eq_dec : EqDecision mountInfo.
Proof. solve_decision. Defined.

Fixpoint isBind_range (options : list string) (bind : bool)
         (bindRemountOpts : list string) : bool * list string :=
  match options with
  | [] => (bind, bindRemountOpts)
  | option :: rest =>
      if String.eqb option "bind" then
        isBind_range rest true bindRemountOpts
      else if String.eqb option "remount" then
        isBind_range rest bind bindRemountOpts
      else
        isBind_range rest bind (bindRemountOpts ++ [option])
  end.

(** [isBind] detects whether a bind mount is being requested and makes
    the remount options to use in case of bind mount. *)
Definition isBind (options : list string) : bool * list string :=
  isBind_range options false ["remount"].

(** [makeMountArgs] makes the arguments to the mount(8) command:
    [mount [-t $fstype] [-o $options] [$source] $target]. *)
Definition makeMountArgs (source target fstype : string)
           (options : list string) : list string :=
  let mountArgs := [] in
  let mountArgs :=
    if 0 <? len fstype then mountArgs ++ ["-t"; fstype] else mountArgs in
  let mountArgs :=
    if (0 <? Z.of_nat (length options))
    then mountArgs ++ ["-o"; Join options ","] else mountArgs in
  let mountArgs :=
    if 0 <? len source then mountArgs ++ [source] else mountArgs in
  mountArgs ++ [target].

(** [sets.NewString("nfs", "glusterfs", "ceph", "cifs")] *)
Definition fsTypesNeedMounter : gset string :=
  {[ "nfs"; "glusterfs"; "ceph"; "cifs" ]}.

Definition mountFailed (err : error) (mountCmd source target fstype : string)
           (options : list string) (output : string) : error :=
  Errorf "mount failed: %v\nMounting command: %s\nMounting arguments: %s %s %s %v\nOutput: %s\n"
         [FErr err; FStr mountCmd; FStr source; FStr target; FStr fstype;
          FStrs options; FStr output].

Section WithEnv.
Context {E : Env}.

(** [doMount] runs the mount command. *)
Definition doMount (mounterPath mountCmd source target fstype : string)
           (options : list string) : M E (option error) :=
  let mountArgs := makeMountArgs source target fstype options in
  let '(mountCmd, mountArgs) :=
    if 0 <? len mounterPath
    then (mounterPath, mountCmd :: mountArgs)
    else (mountCmd, mountArgs) in
  exec glog (V 4) "Mounting cmd (%s) with arguments (%s)";
  do ' (output, err) <- runCommand OsExec mountCmd mountArgs;
  match err with
  | Some e =>
      exec glog Error "Mount failed: %v\nMounting command: %s\nMounting arguments: %s %s %s %v\nOutput: %s\n";
      ret (Some (mountFailed e mountCmd source target fstype options output))
  | None => ret None
  end.

(** [readProcMountsFrom] hashes the lines of a mount table and, when
    [out] is not nil, parses them into [MountPoint]s.  [out] is the
    slice behind the pointer, [None] for a nil pointer. *)
Fixpoint readProcMounts_lines (lines : list string) (hash : Z)
         (out : option (list MountPoint))
  : result (Z * option (list MountPoint)) :=
  match lines with
  | [] => Ok (hash, out)
  | line :: rest =>
      match Fields line with
      | [f0; f1; f2; f3; f4; f5] =>
          let hash := Fnv.write hash line in
          match out with
          | None => readProcMounts_lines rest hash None
          | Some mps =>
              match Atoi f4 with
              | None => Err (ErrOther "strconv.Atoi")
              | Some freq =>
                  match Atoi f5 with
                  | None => Err (ErrOther "strconv.Atoi")
                  | Some pass =>
                      let mp := {| Device := f0; Path := f1; Type_ := f2;
                                   Opts := Split f3 ","%char;
                                   Freq := freq; Pass := pass |} in
                      readProcMounts_lines rest hash (Some (mps ++ [mp]))
                  end
              end
          end
      | fields =>
          Err (Errorf "wrong number of fields (expected %d, got %d): %s"
                      [FInt (Z.of_nat expectedNumFieldsPerLine);
                       FInt (Z.of_nat (length fields)); FStr line])
      end
  end.

Definition readProcMountsFrom (file : string)
           (out : option (list MountPoint))
  : result (Z * option (list MountPoint)) :=
  readProcMounts_lines (readLines file) Fnv.offset32 out.

(** [readProcMounts] reads the given mountFilePath and produces a hash
    of the contents. *)
Definition readProcMounts (mountFilePath : string)
           (out : option (list MountPoint))
  : M E (result (Z * option (list MountPoint))) :=
  do file <- openAndRead mountFilePath;
  match file with
  | Err e => ret (Err e)
  | Ok content => ret (readProcMountsFrom content out)
  end.

Definition inconsistentSnapshot (mountFilePath : string) : error :=
  Errorf "failed to get a consistent snapshot of %v after %d tries"
         [FStr mountFilePath; FInt (Z.of_nat maxListTries)].

(** The loop [for i := 0; i < maxListTries; i++] of [listProcMounts],
    with [tries] iterations left. *)
Fixpoint listProcMounts_tries (tries : nat) (mountFilePath : string)
         (hash1 : Z) : M E (result (list MountPoint)) :=
  match tries with
  | O => ret (Err (inconsistentSnapshot mountFilePath))
  | S tries' =>
      do r <- readProcMounts mountFilePath (Some []);
      match r with
      | Err e => ret (Err e)
      | Ok (hash2, mps) =>
          if hash1 =? hash2
          then ret (Ok (default [] mps))
          else listProcMounts_tries tries' mountFilePath hash2
      end
  end.

Definition listProcMounts (mountFilePath : string)
  : M E (result (list MountPoint)) :=
  do r <- readProcMounts mountFilePath None;
  match r with
  | Err e => ret (Err e)
  | Ok (hash1, _) => listProcMounts_tries maxListTries mountFilePath hash1
  end.

(** The optional fields of a mountinfo line: the loop
    [for i := 6; i < len(fields) && fields[i] != "-"; i++]. *)
Fixpoint optionalFields (fields : list string) : list string :=
  match fields with
  | [] => []
  | f :: rest => if String.eqb f "-" then [] else f :: optionalFields rest
  end.

Fixpoint parseMountInfo_lines (lines : list string) (infos : list mountInfo)
  : result (list mountInfo) :=
  match lines with
  | [] => Ok infos
  | line :: rest =>
      let fields := Fields line in
      if (length fields <? 7)%nat then
        Err (Errorf "wrong number of fields in (expected %d, got %d): %s"
                    [FInt 8; FInt (Z.of_nat (length fields)); FStr line])
      else
        let info := {| root := nth 3 fields "";
                       mountPoint := nth 4 fields "";
                       optional := optionalFields (drop 6 fields) |} in
        parseMountInfo_lines rest (infos ++ [info])
  end.

(** [parseMountInfo] parses /proc/xxx/mountinfo. *)
Definition parseMountInfo (filename : string)
  : M E (result (list mountInfo)) :=
  do file <- openAndRead filename;
  match file with
  | Err e => ret (Err e)
  | Ok content => ret (parseMountInfo_lines (readLines content) [])
  end.

(** [reflect.DeepEqual] on two [[]mountInfo]: both slices and every
    [optional] slice in them are non-nil, so this is equality of the
    lists. *)
Definition deepEqual (a b : list mountInfo) : bool :=
  bool_decide (a = b).

(** The loop [for { ... }] of [getMountInfo].  The source loop has no
    bound; [fuel] counts the iterations this run may take, and [None]
    is a run that has not returned within them. *)
Fixpoint getMountInfo_loop (fuel : nat) (filename : string)
         (oldInfo : list mountInfo)
  : M E (option (result (list mountInfo))) :=
  match fuel with
  | O => ret None
  | S fuel' =>
      do r <- parseMountInfo filename;
      match r with
      | Err e => ret (Some (Err e))
      | Ok newInfo =>
          if deepEqual oldInfo newInfo
          then ret (Some (Ok oldInfo))
          else getMountInfo_loop fuel' filename newInfo
      end
  end.

(** [getMountInfo] reads /proc/xxx/mountinfo and makes sure it did not
    change between reads. *)
Definition getMountInfo (fuel : nat) (filename : string)
  : M E (option (result (list mountInfo))) :=
  do r <- parseMountInfo filename;
  match r with
  | Err e => ret (Some (Err e))
  | Ok oldInfo => getMountInfo_loop fuel filename oldInfo
  end.

(** The backward loop of [isShared]: the entry of greatest index whose
    mount point is a prefix of [path]. *)
Definition findMount (path : string) (infos : list mountInfo)
  : option mountInfo :=
  find (fun info => HasPrefix path (mountPoint info)) (rev infos).

Definition hasSharedOpt (info : mountInfo) : bool :=
  existsb (fun opt => HasPrefix opt "shared:") (optional info).

Definition isShared_in (path : string) (infos : list mountInfo)
  : result bool :=
  match findMount path infos with
  | None => Err (Errorf "cannot find mount point for %q" [FStr path])
  | Some info => Ok (hasSharedOpt info)
  end.

(** [isShared] returns true, if given path is on a mount point that has
    shared mount propagation. *)
Definition isShared (fuel : nat) (path filename : string)
  : M E (option (result bool)) :=
  do r <- getMountInfo fuel filename;
  match r with
  | None => ret None
  | Some (Err e) => ret (Some (Err e))
  | Some (Ok infos) => ret (Some (isShared_in path infos))
  end.

(** [doMakeShared] checks if path is shared and bind-mounts it as shared
    if needed. *)
Definition doMakeShared (fuel : nat) (path mountInfoFilename mountCmd : string)
           (mountArgs : list string) : M E (option (option error)) :=
  do shared <- isShared fuel path mountInfoFilename;
  match shared with
  | None => ret None
  | Some (Err e) => ret (Some (Some e))
  | Some (Ok true) =>
      exec glog (V 4) "Directory %s is already on a shared mount";
      ret (Some None)
  | Some (Ok false) =>
      exec glog (V 2) "Bind-mounting %q with shared mount propagation";
      let bindArgs := mountArgs ++ ["--bind"; path; path] in
      do ' (output, err) <- runCommand OsExec mountCmd bindArgs;
      match err with
      | Some e =>
          exec glog Error "Failed to bind-mount %s: %v\nExecuted: %s %v, Output: %s";
          ret (Some (Some (Errorf "failed to bind-mount %s: %v"
                                  [FStr path; FErr e])))
      | None =>
          let makeSharedArgs := mountArgs ++ ["--make-rshared"; path] in
          do ' (output, err) <- runCommand OsExec mountCmd makeSharedArgs;
          match err with
          | Some e =>
              exec glog Error "Failed to make %s shared: %v\nExecuted: %s %v, Output: %s";
              ret (Some (Some (Errorf "failed to make %s shared: %v"
                                      [FStr path; FErr e])))
          | None => ret (Some None)
          end
      end
  end.
End WithEnv.

End Mount.

(** [Mounter], the default implementation of [mount.Interface] on Linux. *)
Module Mounter.
Import GoStrings Mount.

Record t : Type := { mounterPath : string }.

Section WithEnv.
Context {E : Env}.

(** [Mount] mounts source to target as fstype with given options. *)
Definition Mount (mounter : t) (source target fstype : string)
           (options : list string) : M E (option error) :=
  let mounterPath_ := "" in
  let '(bind, bindRemountOpts) := isBind options in
  if bind then
    do err <- doMount mounterPath_ defaultMountCommand
                      source target fstype ["bind"];
    match err with
    | Some e => ret (Some e)
    | None => doMount mounterPath_ defaultMountCommand
                      source target fstype bindRemountOpts
    end
  else
    let mounterPath_ :=
      if bool_decide (fstype ∈ fsTypesNeedMounter)
      then mounterPath mounter else mounterPath_ in
    doMount mounterPath_ defaultMountCommand source target fstype options.

(** [List] returns a list of all mounted filesystems. *)
Definition List : M E (result (list MountPoint)) :=
  listProcMounts procMountsPath.

Definition MakeShared (fuel : nat) (path : string)
  : M E (option (option error)) :=
  let mountCmd := defaultMountCommand in
  let mountArgs := [] in
  doMakeShared fuel path procMountInfoPath mountCmd mountArgs.
End WithEnv.

End Mounter.

(** [execMounter], a mounter that mounts through the [Exec] it is given. *)
Module execMounter.
Import GoStrings Mount.

Section WithEnv.
Context {E : Env}.

Definition doExecMount (source target fstype : string)
           (options : list string) : M E (option error) :=
  exec glog (V 5) "Exec Mounting %s %s %s %v";
  let mountArgs := makeMountArgs source target fstype options in
  do ' (output, err) <- runCommand (MountExec defaultExecTimeout)
                                   "mount" mountArgs;
  exec glog (V 5) "Exec mounted %v: %v: %s";
  match err with
  | Some e =>
      exec glog Error "Mount failed: %v\nMounting command: %s\nMounting arguments: %s %s %s %v\nOutput: %s\n";
      ret (Some (mountFailed e "mount" source target fstype options output))
  | None => ret None
  end.

Definition Mount (source target fstype : string) (options : list string)
  : M E (option error) :=
  let '(bind, bindRemountOpts) := isBind options in
  if bind then
    do err <- doExecMount source target fstype ["bind"];
    match err with
    | Some e => ret (Some e)
    | None => doExecMount source target fstype bindRemountOpts
    end
  else
    doExecMount source target fstype options.
End WithEnv.

End execMounter.

(** [SafeFormatAndMount]: a mounter ([Interface], here the world's
    [mountOp]) and an [Exec] (the world's [command] at [SafeExec]). *)
Module SafeFormatAndMount.
Import GoStrings Mount.

(** What [getDiskFormat] makes of the output of [lsblk -n -o FSTYPE]. *)
Definition diskFormat (output : string) : string :=
  let output := TrimSuffixLF output in
  let lines := Split output LF in
  if negb (String.eqb (nth 0 lines "") "") then
    nth 0 lines ""
  else if (length lines =? 1)%nat then
    ""
  else
    "unknown data, probably partitions".

Definition fsckUncorrected (source out : string) : error :=
  Errorf "'fsck' found errors on device %s but could not correct them: %s."
         [FStr source; FStr out].

Definition unexpectedFilesystem (fstype existingFormat : string)
           (mountErr : error) : error :=
  Errorf "failed to mount the volume as %q, it already contains %s. Mount error: %v"
         [FStr fstype; FStr existingFormat; FErr mountErr].

Section WithEnv.
Context {E : Env}.

(** [getDiskFormat] uses 'lsblk' to see if the given disk is unformated. *)
Definition getDiskFormat (disk : string) : M E (result string) :=
  let args := ["-n"; "-o"; "FSTYPE"; disk] in
  exec glog (V 4) "Attempting to determine if disk %q is formatted using lsblk with args: (%v)";
  do ' (dataOut, err) <- runCommand SafeExec "lsblk" args;
  exec glog (V 4) "Output: %q";
  match err with
  | Some e =>
      exec glog Error "Could not determine if disk %q is formatted (%v)";
      ret (Err e)
  | None => ret (Ok (diskFormat dataOut))
  end.

(** The [switch] on the error of [fsck -a]: [Some e] when the check is
    fatal for the mount. *)
Definition checkFsck (source out : string) (err : option error)
  : M E (option error) :=
  match err with
  | None => ret None
  | Some ErrExecutableNotFound =>
      exec glog Warning "'fsck' not found on system; continuing mount without running 'fsck'.";
      ret None
  | Some (ExitError status) =>
      if status =? fsckErrorsCorrected then
        exec glog Info "Device %s has errors which were corrected by fsck.";
        ret None
      else if status =? fsckErrorsUncorrected then
        ret (Some (fsckUncorrected source out))
      else if fsckErrorsUncorrected <? status then
        exec glog Info "`fsck` error %s";
        ret None
      else ret None
  | Some _ => ret None
  end.

(** [formatAndMount] uses unix utils to format and mount the given disk. *)
Definition formatAndMount (source target fstype : string)
           (options : list string) : M E (option error) :=
  let options := options ++ ["defaults"] in
  exec glog (V 4) "Checking for issues with fsck on disk: %s";
  let args := ["-a"; source] in
  do ' (out, err) <- runCommand SafeExec "fsck" args;
  do fatal <- checkFsck source out err;
  match fatal with
  | Some e => ret (Some e)
  | None =>
      exec glog (V 4) "Attempting to mount disk: %s %s %s";
      do mountErr <- interfaceMount source target fstype options;
      match mountErr with
      | None => ret None
      | Some mErr =>
          do existing <- getDiskFormat source;
          match existing with
          | Err e => ret (Some e)
          | Ok existingFormat =>
              if String.eqb existingFormat "" then
                let args := [source] in
                let fstype := if len fstype =? 0 then "ext4" else fstype in
                let args :=
                  if (String.eqb fstype "ext4" || String.eqb fstype "ext3")%bool
                  then ["-F"; source] else args in
                exec glog Info "Disk %q appears to be unformatted, attempting to format as type: %q with options: %v";
                do ' (_, err) <- runCommand SafeExec ("mkfs." +:+ fstype) args;
                match err with
                | None =>
                    exec glog Info "Disk successfully formatted (mkfs): %s - %s %s";
                    interfaceMount source target fstype options
                | Some e =>
                    exec glog Error "format of disk %q failed: type:(%q) target:(%q) options:(%q)error:(%v)";
                    ret (Some e)
                end
              else if (len fstype =? 0) || String.eqb fstype existingFormat then
                ret (Some mErr)
              else
                ret (Some (unexpectedFilesystem fstype existingFormat mErr))
          end
      end
  end.
End WithEnv.

End SafeFormatAndMount.

(** ** The kubelet's volume host *)

Module Kubelet.
Import GoStrings.

Definition GetVolumePluginSocketPath (rootDir pluginName : string) : string :=
  (* sanitize plugin name so it does not escape directory *)
  let p := ReplaceAll pluginName "/"%char "~"%char in
  GoPath.Join [rootDir; "plugin-sockets"; p].

(** [p] names something inside the directory [dir]: it is [dir], a slash
    and at least one more byte. *)
Definition insideDir (dir p : string) : Prop :=
  exists rest, rest <> "" /\ p = dir +:+ "/" +:+ rest.

End Kubelet.

(** ** [pkg/volume]: the cache of mount pods *)

Module Volume.

(** Modelled from the spec: the phase constants of [v1.PodPhase], a string
    type declared outside the sources ("phase is Running", "phase
    Succeeded"). *)
Definition PodRunning : string := "Running".
Definition PodSucceeded : string := "Succeeded".

(** The fields of [v1.Pod] that the manager reads. *)
Record Pod : Type := {
  Name : string;
  Namespace : string;
  UID : string;
  Labels : gmap string string;
  Phase : string
}.

(** [mountPodManager] keeps track of mount pods in given namespace.
    [pods] is a cache of mount pods for given plugin name, indexed by UID.
    The plugin manager is not among the sources: [pluginMgr] is the list
    of names that its [GetPluginNames()] returns, any list. *)
Record mountPodManager : Type := {
  pluginMgr : list string;
  namespace : string;
  pods : gmap string (gmap string Pod)
}.

Definition NewMountPodManager (pluginMgr : list string)
           (watchedNamespace : string) : mountPodManager :=
  {| pluginMgr := pluginMgr; namespace := watchedNamespace; pods := ∅ |}.

(** [pod.Labels[key]]: the empty string when the key is missing. *)
Definition label (pod : Pod) (key : string) : string :=
  default "" (Labels pod !! key).

Definition deletePodLocked (cache : gmap string (gmap string Pod)) (pod : Pod)
  : gmap string (gmap string Pod) :=
  delete (UID pod) <$> cache.

(** The loop of [AddPod] over the plugin names. *)
Fixpoint addToPlugins (pluginNames : list string) (pod : Pod)
         (cache : gmap string (gmap string Pod))
  : gmap string (gmap string Pod) :=
  match pluginNames with
  | [] => cache
  | pluginName :: rest =>
      if String.eqb (label pod ("mount." +:+ pluginName)) "true" then
        let ps := default ∅ (cache !! pluginName) in
        let ps := <[UID pod := pod]> ps in
        addToPlugins rest pod (<[pluginName := ps]> cache)
      else addToPlugins rest pod cache
  end.

Definition withPods (m : mountPodManager)
           (cache : gmap string (gmap string Pod)) : mountPodManager :=
  {| pluginMgr := pluginMgr m; namespace := namespace m; pods := cache |}.

Definition AddPod (m : mountPodManager) (pod : Pod) : mountPodManager :=
  if negb (String.eqb (Namespace pod) (namespace m)) then
    (* ignore pods from unknown namespaces *)
    m
  else
    let cache := deletePodLocked (pods m) pod in
    if negb (String.eqb (Phase pod) PodRunning) then
      withPods m cache
    else
      withPods m (addToPlugins (pluginMgr m) pod cache).

Definition DeletePod (m : mountPodManager) (pod : Pod) : mountPodManager :=
  if negb (String.eqb (Namespace pod) (namespace m)) then m
  else withPods m (deletePodLocked (pods m) pod).

(** [GetPod] returns the pod that a [range] over the plugin's map yields
    first.  Go leaves the order of a map iteration unspecified; [pick]
    chooses the entry it starts with. *)
Definition GetPod (pick : nat) (m : mountPodManager) (pluginName : string)
  : option Pod :=
  match pods m !! pluginName with
  | None => None
  | Some ps =>
      let entries := map_to_list ps in
      snd <$> entries !! (pick mod length entries)%nat
  end.

(** The pod cached for a plugin under a UID, if any. *)
Definition podIn (cache : gmap string (gmap string Pod))
           (pluginName uid : string) : option Pod :=
  cache !! pluginName ≫= fun ps => ps !! uid.

(** Every cached pod is indexed by its own UID. *)
Definition keyed (cache : gmap string (gmap string Pod)) : Prop :=
  forall pluginName uid pod,
    podIn cache pluginName uid = Some pod -> UID pod = uid.

(** The states of a manager: made by [NewMountPodManager] and changed by
    [AddPod] and [DeletePod] only. *)
Inductive reachable : mountPodManager -> Prop :=
| reach_new pluginMgr ns : reachable (NewMountPodManager pluginMgr ns)
| reach_add m pod : reachable m -> reachable (AddPod m pod)
| reach_delete m pod : reachable m -> reachable (DeletePod m pod).

(** The pods of [TestMountPodManager]. *)
Definition mountNamespace : string := "kube-mount".
Definition fakePluginName1 : string := "kubernetes.io/fake-plugin1".
Definition fakePluginName2 : string := "kubernetes.io/fake-plugin2".
Definition fakePluginName3 : string := "kubernetes.io/fake-plugin3".

Definition pod1 : Pod :=
  {| Name := "pod1"; Namespace := mountNamespace; UID := "1";
     Labels := {[ "mount." +:+ fakePluginName1 := "true";
                  "mount." +:+ fakePluginName2 := "false" ]};
     Phase := PodRunning |}.

(** [pod1] after [pod1.Status.Phase = v1.PodSucceeded]. *)
Definition pod1Succeeded : Pod :=
  {| Name := "pod1"; Namespace := mountNamespace; UID := "1";
     Labels := Labels pod1; Phase := PodSucceeded |}.

Definition mgrWithPod1 : mountPodManager :=
  AddPod (NewMountPodManager
            [fakePluginName1; fakePluginName2; fakePluginName3]
            mountNamespace)
         pod1.

End Volume.

(** ** [cmd/volumeexec]: the service that runs commands for the kubelet *)

Module VolumeExec.

(** The fields of [runtime.ExecSyncRequest] and [runtime.ExecSyncResponse]
    that the service and its client use. *)
Record ExecSyncRequest : Type := { Cmd : list string; Timeout : Z }.

Record ExecSyncResponse : Type := {
  Stdout : string;
  Stderr : string;
  ExitCode : Z
}.

(** What a started command leaves behind: the error of [c.Run()] and the
    two buffers it wrote to. *)
Record finished : Type := {
  runErr : option error;
  stdout : string;
  stderr : string
}.

(** The conversion [int32(n)] of an [int]. *)
Definition int32 (n : Z) : Z := (n + 2 ^ 31) mod 2 ^ 32 - 2 ^ 31.

Section WithCommands.
(** [run cmd args timer]: the command run in the background and waited
    for, stopped after [timer] seconds if a timer was started.  The log
    lines of [doExec] are left out. *)
Variable run : string -> list string -> option Z -> finished.

Definition doExec (cmd : list string) (timeout : Z)
  : option error * Z * string * string :=
  match cmd with
  | [] => (Some (Errorf "Missing command" []), 0, "", "")
  | cmd0 :: args =>
      let timer := if 0 <? timeout then Some timeout else None in
      let c := run cmd0 args timer in
      match runErr c with
      | Some (ExitError status) => (None, int32 status, stdout c, stderr c)
      | Some err => (Some err, -1, stdout c, stderr c)
      | None => (None, 0, stdout c, stderr c)
      end
  end.

Definition ExecSync (req : ExecSyncRequest) : result ExecSyncResponse :=
  let '(err, exitcode, stdout, stderr) := doExec (Cmd req) (Timeout req) in
  match err with
  | Some e => Err e
  | None => Ok {| ExitCode := exitcode; Stdout := stdout; Stderr := stderr |}
  end.
End WithCommands.

End VolumeExec.

(** [grpcExec], the kubelet's [mount.Exec] that sends every command to an
    [ExecService]; [client] is [e.client.ExecSync].  The
    [exec.CodeExitError] it makes is a [utilexec.ExitError] whose
    [ExitStatus()] is its [Code]. *)
Module grpcExec.
Import VolumeExec.

Definition Run (client : ExecSyncRequest -> result ExecSyncResponse)
           (cmd : string) (args : list string) : string * option error :=
  let request := {| Cmd := cmd :: args; Timeout := 0 |} in
  match client request with
  | Err err => ("", Some err)
  | Ok response =>
      let out := Stdout response +:+ Stderr response in
      let exitCode := ExitCode response in
      if negb (exitCode =? 0) then (out, Some (ExitError exitCode))
      else (out, None)
  end.
End grpcExec.

(** [kubeletVolumeHost] with a mount pod manager: what [GetMounter] and
    [GetExec] choose for a plugin. *)
Module kubeletVolumeHost.

(** The mounter of the kubelet itself, or [mount.NewExecMounter] of a
    [containerExec] in the pod, wrapped around it. *)
Inductive mounterChoice : Type :=
| kubeletMounter
| execMounterIn (pod : Volume.Pod).

(** [mount.NewOsExec()], or a [containerExec] in the pod. *)
Inductive execChoice : Type :=
| osExec
| containerExecIn (pod : Volume.Pod).

(** [pick] is the entry with which [GetPod] starts to iterate. *)
Definition GetMounter (enableMountPropagation : bool) (pick : nat)
           (mountPodMgr : Volume.mountPodManager) (pluginName : string)
  : mounterChoice :=
  if negb enableMountPropagation then kubeletMounter
  else
    match Volume.GetPod pick mountPodMgr pluginName with
    | None => kubeletMounter
    | Some pod => execMounterIn pod
    end.

Definition GetExec (enableMountPropagation : bool) (pick : nat)
           (mountPodMgr : Volume.mountPodManager) (pluginName : string)
  : execChoice :=
  if negb enableMountPropagation then osExec
  else
    match Volume.GetPod pick mountPodMgr pluginName with
    | None => osExec
    | Some pod => containerExecIn pod
    end.

End kubeletVolumeHost.

(** ** Observing a run *)

(** The trace a run leaves behind. *)
Definition trace_of {E : Env} {A : Type} (r : A * state E) : list event :=
  snd (snd r).

Definition world_of {E : Env} {A : Type} (r : A * state E) : World E :=
  fst (snd r).

Definition invocation (e : event) : option (runner * string * list string) :=
  match e with
  | EvRun via cmd args => Some (via, cmd, args)
  | _ => None
  end.

(** The external commands of a trace, in order. *)
Definition invocations (tr : list event)
  : list (runner * string * list string) :=
  omap invocation tr.

Definition mountCall (e : event)
  : option (string * string * string * list string) :=
  match e with
  | EvMount source target fstype options =>
      Some (source, target, fstype, options)
  | _ => None
  end.

(** The calls of [Interface.Mount] in a trace, in order. *)
Definition mountCalls (tr : list event)
  : list (string * string * string * list string) :=
  omap mountCall tr.

(** The log lines of a trace, in order. *)
Definition logged (tr : list event) : list (severity * string) :=
  omap (fun e => match e with EvLog sev f => Some (sev, f) | _ => None end) tr.

(** The requested options that [isBind] keeps for the remount. *)
Definition remountOptions (options : list string) : list string :=
  List.filter
    (fun o => negb (String.eqb o "bind" || String.eqb o "remount")) options.

(** ** Scripted worlds

    A world that answers from a script: commands and mounts take their
    answers from lists (and succeed silently once the list is used up),
    the [n]-th read of a file returns [file n]. *)

Record Script : Type := {
  commands : list (string * option error);
  mounts : list (option error);
  file : nat -> result string;
  opened : nat
}.

Definition scripted : Env := {|
  World := Script;
  command := fun _ _ _ w =>
    match commands w with
    | a :: rest =>
        (a, {| commands := rest; mounts := mounts w;
               file := file w; opened := opened w |})
    | [] => (("", None), w)
    end;
  mountOp := fun _ _ _ _ w =>
    match mounts w with
    | a :: rest =>
        (a, {| commands := commands w; mounts := rest;
               file := file w; opened := opened w |})
    | [] => (None, w)
    end;
  readFile := fun _ w =>
    (file w (opened w),
     {| commands := commands w; mounts := mounts w;
        file := file w; opened := S (opened w) |})
|}.

Definition noFile : nat -> result string :=
  fun _ => Err (ErrOther "no such file or directory").

(** A script of answers to commands only. *)
Definition script_commands (answers : list (string * option error)) : Script :=
  {| commands := answers; mounts := []; file := noFile; opened := O |}.

(** A world in which the [n]-th read of any file yields [contents n],
    and [k] reads have been made. *)
Definition reading (contents : nat -> string) (k : nat) : Script :=
  {| commands := []; mounts := []; file := fun n => Ok (contents n);
     opened := k |}.

(** The hash [readProcMountsFrom] computes for a mount table, if it
    accepts its lines. *)
Definition tableHash (content : string) : option Z :=
  match Mount.readProcMountsFrom content None with
  | Ok (h, _) => Some h
  | Err _ => None
  end.

(** The mount points [readProcMountsFrom] parses from a mount table. *)
Definition tableMounts (content : string) : option (list Mount.MountPoint) :=
  match Mount.readProcMountsFrom content (Some []) with
  | Ok (_, Some mps) => Some mps
  | _ => None
  end.

(** What [parseMountInfo] makes of the content of a mountinfo file. *)
Definition parsedInfo (content : string) : result (list Mount.mountInfo) :=
  Mount.parseMountInfo_lines (GoStrings.readLines content) [].

Definition noCommands : Script := script_commands [].

Definition mountRefused : Script :=
  script_commands [("mount: permission denied", Some (ExitError 32))].

Definition aMounter : Mounter.t := {| Mounter.mounterPath := "/opt/mounter" |}.

(** The type [formatAndMount] formats an unformatted disk as: the
    caller's, or "ext4" when the caller gave none. *)
Definition formatType (fstype : string) : string :=
  if String.eqb fstype "" then "ext4" else fstype.

(** The arguments it gives to [mkfs.<type>]. *)
Definition formatArgs (fstype source : string) : list string :=
  if (String.eqb (formatType fstype) "ext4"
      || String.eqb (formatType fstype) "ext3")%bool
  then ["-F"; source] else [source].

(** fsck succeeds, the mount fails, lsblk reports no filesystem, mkfs
    succeeds and the second mount succeeds. *)
Definition blankDisk : Script :=
  {| commands := [("", None); (GoStrings.nl, None); ("", None)];
     mounts := [Some (ExitError 32); None];
     file := noFile; opened := O |}.

(** As [blankDisk], but mkfs fails. *)
Definition blankDiskMkfsFails : Script :=
  {| commands := [("", None); (GoStrings.nl, None);
                  ("mkfs.ext4: Permission denied", Some (ExitError 1))];
     mounts := [Some (ExitError 32); None];
     file := noFile; opened := O |}.

(** fsck exits with the given status; everything else succeeds. *)
Definition fsckExits (status : Z) : Script :=
  script_commands [("", Some (ExitError status))].

(** One line of /proc/mounts for a tmpfs named [device]. *)
Definition tableLine (device : string) : string :=
  device +:+ " /mnt tmpfs rw,relatime 0 0" +:+ GoStrings.nl.

(** Two well-formed mount tables that differ and have the same FNV-1a
    hash, read in turn. *)
Definition collidingTables (n : nat) : string :=
  if Nat.even n then tableLine "costarring" else tableLine "liquid".

(** A well-formed mount table, and from the second read on a growing
    number of lines that lack their last field. *)
Definition truncatedTable (n : nat) : string :=
  match n with
  | O => tableLine "tmpfs"
  | S k =>
      String.concat
        "" (replicate (S k) ("tmpfs /mnt tmpfs rw,relatime 0" +:+ GoStrings.nl))
  end.

(** A mount table that has one more line at every read. *)
Definition growingTable (n : nat) : string :=
  String.concat "" (replicate (S n) (tableLine "tmpfs")).

(** Two contents of /proc/self/mountinfo: the root mount alone, and the
    root mount with a shared bind mount of the kubelet directory. *)
Definition rootOnly : string :=
  "22 1 8:1 / / rw,relatime - ext4 /dev/sda1 rw" +:+ GoStrings.nl.

Definition kubeletShared : string :=
  rootOnly +:+
  "40 22 8:1 /var/lib/kubelet /var/lib/kubelet rw,relatime shared:7 - ext4 /dev/sda1 rw"
  +:+ GoStrings.nl.

(** A mountinfo file that changes between any two reads. *)
Definition flipping (n : nat) : string :=
  if Nat.even n then rootOnly else kubeletShared.

(** A mountinfo file that changes once, after the first read. *)
Definition settling (n : nat) : string :=
  match n with O => rootOnly | S _ => kubeletShared end.

(** A mountinfo file that shows the shared bind mount from the third read
    on, as after the two commands of a first [MakeShared]. *)
Definition sharedAfterTwoReads (n : nat) : string :=
  if (n <? 2)%nat then rootOnly else kubeletShared.

(** The root mount alone, and a [mount --bind] that fails. *)
Definition bindRefused : Script :=
  {| commands := [("mount: permission denied", Some (ExitError 32))];
     mounts := []; file := fun _ => Ok rootOnly; opened := O |}.

(** ** Predicates and worlds of the further properties *)

(** No byte of [s] is a newline. *)
Fixpoint noLF (s : string) : bool :=
  match s with
  | EmptyString => true
  | String c s' => negb (Ascii.eqb c GoStrings.LF) && noLF s'
  end.

(** What a line of /proc/mounts and the mount point parsed from it have
    to do with each other. *)
Definition parsedFrom (line : string) (mp : Mount.MountPoint) : Prop :=
  exists freq pass,
    GoStrings.Fields line =
    [Mount.Device mp; Mount.Path mp; Mount.Type_ mp;
     GoStrings.Join (Mount.Opts mp) ","; freq; pass] /\
    GoStrings.Atoi freq = Some (Mount.Freq mp) /\
    GoStrings.Atoi pass = Some (Mount.Pass mp).

(** What a line of mountinfo and the entry parsed from it have to do
    with each other. *)
Definition entryOf (line : string) (info : Mount.mountInfo) : Prop :=
  let fields := GoStrings.Fields line in
  (7 <= length fields)%nat /\
  fields !! 3%nat = Some (Mount.root info) /\
  fields !! 4%nat = Some (Mount.mountPoint info) /\
  Mount.mountPoint info <> "" /\
  ~ In "-" (Mount.optional info) /\
  exists rest, drop 6 fields = Mount.optional info ++ rest /\
               (rest = [] \/ exists rest', rest = "-" :: rest').

(** What the manager may hold for a plugin under a UID. *)
Definition mountPodOf (m : Volume.mountPodManager) (pluginName uid : string)
           (pod : Volume.Pod) : Prop :=
  Volume.UID pod = uid /\
  Volume.Namespace pod = Volume.namespace m /\
  Volume.Phase pod = Volume.PodRunning /\
  Volume.label pod ("mount." +:+ pluginName) = "true" /\
  pluginName ∈ Volume.pluginMgr m.

(** fsck succeeds, the mount fails and lsblk reports an xfs filesystem. *)
Definition formattedDisk : Script :=
  {| commands := [("", None); ("xfs" +:+ GoStrings.nl, None)];
     mounts := [Some (ExitError 32)];
     file := noFile; opened := O |}.

(** A mount table of one line that is the same at every read, and the
    mount point of that line. *)
Definition steadyTable (n : nat) : string := tableLine "tmpfs".

Definition tmpfsAtMnt : Mount.MountPoint :=
  {| Mount.Device := "tmpfs"; Mount.Path := "/mnt"; Mount.Type_ := "tmpfs";
     Mount.Opts := ["rw"; "relatime"]; Mount.Freq := 0; Mount.Pass := 0 |}.

(** The root mount alone; the bind mount succeeds and
    [mount --make-rshared] fails. *)
Definition rsharedRefused : Script :=
  {| commands := [("", None);
                  ("mount: permission denied", Some (ExitError 32))];
     mounts := []; file := fun _ => Ok rootOnly; opened := O |}.

(** * Properties *)

Lemma invocations_app (a b : list event) :
  invocations (a ++ b) = invocations a ++ invocations b.
Proof. apply omap_app. Qed.

Lemma mountCalls_app (a b : list event) :
  mountCalls (a ++ b) = mountCalls a ++ mountCalls b.
Proof. apply omap_app. Qed.

Lemma logged_app (a b : list event) :
  logged (a ++ b) = logged a ++ logged b.
Proof. apply omap_app. Qed.

(** ** The models of the standard library, on Go's own examples *)

(** [path.Clean] and [path.Join] on the table of Go's own tests. *)
Example Clean_examples :
  map GoPath.Clean
      [""; "abc"; "abc/def"; "."; ".."; "../.."; "../../abc"; "/abc"; "/";
       "abc/"; "./"; "../"; "/abc/"; "abc//def//ghi"; "//abc"; "//abc//";
       "abc/./def"; "/./abc/def"; "abc/."; "abc/def/ghi/../jkl";
       "abc/def/../ghi/../jkl"; "abc/def/.."; "abc/def/../..";
       "/abc/def/../.."; "abc/def/../../.."; "/abc/def/../../..";
       "abc/def/../../../ghi/jkl/../../../mno"; "abc/./../def";
       "abc/../../././../def"] =
  ["."; "abc"; "abc/def"; "."; ".."; "../.."; "../../abc"; "/abc"; "/";
   "abc"; "."; ".."; "/abc"; "abc/def/ghi"; "/abc"; "/abc";
   "abc/def"; "/abc/def"; "abc"; "abc/def/jkl";
   "abc/jkl"; "abc"; ".";
   "/"; ".."; "/";
   "../../mno"; "def";
   "../../def"].
Proof. reflexivity. Qed.

Example Join_examples :
  map GoPath.Join
      [[]; [""]; ["a"]; ["a"; "b"]; ["a"; ""]; [""; "b"]; ["/"; "a"];
       ["/"; ""]; ["a/"; "b"]; ["a/"; ""]; [""; ""]] =
  [""; ""; "a"; "a/b"; "a"; "b"; "/a"; "/"; "a/b"; "a"; ""].
Proof. reflexivity. Qed.

(** FNV-1a on the golden values of Go's [hash/fnv] tests. *)
Example fnv32a_examples :
  map (Fnv.write Fnv.offset32) [""; "a"; "ab"; "abc"] =
  [0x811c9dc5; 0xe40c292c; 0x4d2505ca; 0x1a47e90b].
Proof. reflexivity. Qed.

Section ModelExamples.
Import GoStrings.

Example Fields_examples :
  Fields ("  /dev/sda1 /  ext4" +:+ String (ascii_of_nat 9) "rw 0 0" +:+ nl) =
  ["/dev/sda1"; "/"; "ext4"; "rw"; "0"; "0"] /\
  Fields "" = [] /\ Fields "  " = [].
Proof. repeat split; reflexivity. Qed.

Example Atoi_examples :
  map Atoi ["0"; "12"; "-12"; "+7"; ""; "+"; "1a"; "0x10";
            "9223372036854775807"; "9223372036854775808"] =
  [Some 0; Some 12; Some (-12); Some 7; None; None; None; None;
   Some 9223372036854775807; None].
Proof. reflexivity. Qed.

Example readLines_examples :
  readLines ("a b" +:+ nl +:+ nl +:+ "c") = ["a b" +:+ nl; nl] /\
  readLines "" = [].
Proof. split; reflexivity. Qed.

(** [getDiskFormat] on the outputs its comments name: "\n" for an
    unformatted device, "\n\n" for a device with one empty partition. *)
Example diskFormat_examples :
  SafeFormatAndMount.diskFormat nl = "" /\
  SafeFormatAndMount.diskFormat (nl +:+ nl) =
  "unknown data, probably partitions" /\
  SafeFormatAndMount.diskFormat ("ext4" +:+ nl) = "ext4" /\
  SafeFormatAndMount.diskFormat (nl +:+ "ext4" +:+ nl) =
  "unknown data, probably partitions".
Proof. repeat split; reflexivity. Qed.

End ModelExamples.

(** ** Bind mounts *)

Section BindMount.
Import GoStrings Mount.

Lemma isBind_range_spec (options : list string) :
  forall bind acc,
    isBind_range options bind acc =
    ((bind || existsb (String.eqb "bind") options)%bool,
     acc ++ remountOptions options).
Proof.
  induction options as [|o rest IH]; intros bind acc.
  - simpl. by rewrite orb_false_r, app_nil_r.
  - cbn [isBind_range existsb remountOptions List.filter].
    fold (remountOptions rest).
    rewrite (String.eqb_sym "bind" o).
    destruct (String.eqb o "bind") eqn:Hb.
    + rewrite IH. cbn [orb negb]. by rewrite orb_true_r.
    + destruct (String.eqb o "remount") eqn:Hr; rewrite IH; cbn [orb negb].
      * done.
      * by rewrite <- app_assoc.
Qed.

(** [isBind] answers whether "bind" is requested, and returns "remount"
    followed by the requested options other than "bind" and "remount". *)
Lemma isBind_spec (options : list string) :
  isBind options =
  (existsb (String.eqb "bind") options, "remount" :: remountOptions options).
Proof. unfold isBind. by rewrite isBind_range_spec. Qed.

Lemma existsb_bind (options : list string) :
  In "bind" options -> existsb (String.eqb "bind") options = true.
Proof.
  intros H. apply existsb_exists. exists "bind". split; [done|].
  apply String.eqb_refl.
Qed.

Lemma remountOptions_no_bind (options : list string) :
  ~ In "bind" (remountOptions options) /\
  ~ In "remount" (remountOptions options).
Proof.
  unfold remountOptions.
  split; intros H; apply filter_In in H as [_ H]; simpl in H;
    by rewrite ?orb_true_r in H.
Qed.

Context {E : Env}.

Lemma doMount_run (mountCmd source target fstype : string)
      (options : list string) (w : World E) (tr : list event) :
  let args := makeMountArgs source target fstype options in
  let answer := command E OsExec mountCmd args w in
  let r := doMount "" mountCmd source target fstype options (w, tr) in
  invocations (trace_of r) = invocations tr ++ [(OsExec, mountCmd, args)] /\
  world_of r = snd answer /\
  fst r = match snd (fst answer) with
          | None => None
          | Some e => Some (mountFailed e mountCmd source target fstype
                                        options (fst (fst answer)))
          end.
Proof.
  intros args answer r. subst r answer args.
  unfold doMount, bind, glog, emit, runCommand, ret, trace_of, world_of,
    invocations; simpl.
  destruct (command E OsExec mountCmd _ w) as [[output [e|]] w']; simpl;
    rewrite ?omap_app; simpl; rewrite ?app_nil_r; done.
Qed.

Lemma doExecMount_run (source target fstype : string)
      (options : list string) (w : World E) (tr : list event) :
  let args := makeMountArgs source target fstype options in
  let via := MountExec defaultExecTimeout in
  let answer := command E via "mount" args w in
  let r := execMounter.doExecMount source target fstype options (w, tr) in
  invocations (trace_of r) = invocations tr ++ [(via, "mount", args)] /\
  world_of r = snd answer /\
  fst r = match snd (fst answer) with
          | None => None
          | Some e => Some (mountFailed e "mount" source target fstype
                                        options (fst (fst answer)))
          end.
Proof.
  intros args via answer r. subst r answer args via.
  unfold execMounter.doExecMount, bind, glog, emit, runCommand, ret,
    trace_of, world_of, invocations; simpl.
  destruct (command E (MountExec defaultExecTimeout) "mount" _ w)
    as [[output [e|]] w']; simpl;
    rewrite ?omap_app; simpl; rewrite ?app_nil_r; done.
Qed.

(** C1 (as amended).  For every options list that contains "bind", [Mount]
    of the local [Mounter] and of the [execMounter] first issues one mount
    invocation with options exactly ["bind"].  If that invocation succeeds,
    exactly one more follows, with "remount" followed by every requested
    option other than "bind" and "remount"; if it fails, no second
    invocation is issued and [Mount] returns the failure. *)
Theorem Mount_bind_invocations (mounter : Mounter.t)
        (source target fstype : string) (options : list string)
        (w : World E) (tr : list event) :
  In "bind" options ->
  let bindArgs := makeMountArgs source target fstype ["bind"] in
  let remountArgs :=
    makeMountArgs source target fstype ("remount" :: remountOptions options) in
  let via := MountExec defaultExecTimeout in
  let local := Mounter.Mount mounter source target fstype options (w, tr) in
  let remote := execMounter.Mount source target fstype options (w, tr) in
  match command E OsExec "mount" bindArgs w with
  | ((_, None), _) =>
      invocations (trace_of local) =
      invocations tr ++ [(OsExec, "mount", bindArgs);
                         (OsExec, "mount", remountArgs)]
  | ((out, Some e), _) =>
      invocations (trace_of local) =
      invocations tr ++ [(OsExec, "mount", bindArgs)] /\
      fst local = Some (mountFailed e "mount" source target fstype ["bind"] out)
  end /\
  match command E via "mount" bindArgs w with
  | ((_, None), _) =>
      invocations (trace_of remote) =
      invocations tr ++ [(via, "mount", bindArgs); (via, "mount", remountArgs)]
  | ((out, Some e), _) =>
      invocations (trace_of remote) =
      invocations tr ++ [(via, "mount", bindArgs)] /\
      fst remote = Some (mountFailed e "mount" source target fstype ["bind"] out)
  end.
Proof.
  intros Hbind bindArgs remountArgs via local remote. split.
  - subst local. unfold Mounter.Mount.
    rewrite isBind_spec, (existsb_bind _ Hbind). unfold bind.
    pose proof (doMount_run defaultMountCommand source target fstype
                            ["bind"] w tr) as H1.
    cbn zeta in H1. change defaultMountCommand with "mount" in *.
    fold bindArgs in H1.
    destruct (doMount "" "mount" source target fstype ["bind"] (w, tr))
      as [err1 [w1 tr1]].
    unfold trace_of, world_of in H1. simpl in H1.
    destruct H1 as (Htr1 & Hw1 & Herr1).
    destruct (command E OsExec "mount" bindArgs w) as [[out [e|]] w'];
      simpl in *; subst.
    + unfold ret, trace_of. simpl. done.
    + pose proof (doMount_run "mount" source target fstype
                              ("remount" :: remountOptions options) w' tr1)
        as H2.
      cbn zeta in H2. fold remountArgs in H2. destruct H2 as (Htr2 & _).
      rewrite Htr2, Htr1. by rewrite <- app_assoc.
  - subst remote. unfold execMounter.Mount.
    rewrite isBind_spec, (existsb_bind _ Hbind). unfold bind.
    pose proof (doExecMount_run source target fstype ["bind"] w tr) as H1.
    cbn zeta in H1. fold bindArgs via in H1.
    destruct (execMounter.doExecMount source target fstype ["bind"] (w, tr))
      as [err1 [w1 tr1]].
    unfold trace_of, world_of in H1. simpl in H1.
    destruct H1 as (Htr1 & Hw1 & Herr1).
    destruct (command E via "mount" bindArgs w) as [[out [e|]] w'];
      simpl in *; subst.
    + unfold ret, trace_of. simpl. done.
    + pose proof (doExecMount_run source target fstype
                                  ("remount" :: remountOptions options) w' tr1)
        as H2.
      cbn zeta in H2. fold remountArgs via in H2. destruct H2 as (Htr2 & _).
      rewrite Htr2, Htr1. by rewrite <- app_assoc.
Qed.

End BindMount.

Lemma Mount_bind_invocations_witness :
  In "bind" ["bind"; "noatime"] /\
  invocations
    (trace_of (Mounter.Mount (E := scripted) aMounter "/exports/a" "/mnt/a" ""
                             ["bind"; "noatime"] (noCommands, []))) =
  [(OsExec, "mount", ["-o"; "bind"; "/exports/a"; "/mnt/a"]);
   (OsExec, "mount", ["-o"; "remount,noatime"; "/exports/a"; "/mnt/a"])].
Proof.
  split; [left; reflexivity|].
  exact (proj1 (Mount_bind_invocations (E := scripted) aMounter
                  "/exports/a" "/mnt/a" "" ["bind"; "noatime"]
                  noCommands [] (or_introl eq_refl))).
Defined.

(** The example of C1: for ["bind"; "noatime"] both mounters issue the bind
    and then a remount that carries "remount" and "noatime" and no "bind". *)
Lemma Mount_bind_noatime :
  invocations
    (trace_of (Mounter.Mount (E := scripted) aMounter "/exports/a" "/mnt/a" ""
                             ["bind"; "noatime"] (noCommands, []))) =
  [(OsExec, "mount", ["-o"; "bind"; "/exports/a"; "/mnt/a"]);
   (OsExec, "mount", ["-o"; "remount,noatime"; "/exports/a"; "/mnt/a"])] /\
  invocations
    (trace_of (execMounter.Mount (E := scripted) "/exports/a" "/mnt/a" ""
                                 ["bind"; "noatime"] (noCommands, []))) =
  [(MountExec Mount.defaultExecTimeout, "mount",
    ["-o"; "bind"; "/exports/a"; "/mnt/a"]);
   (MountExec Mount.defaultExecTimeout, "mount",
    ["-o"; "remount,noatime"; "/exports/a"; "/mnt/a"])].
Proof. split; reflexivity. Qed.

(** C1 as stated fails: when the bind invocation itself fails, [Mount]
    stops after that one invocation, for both mounters. *)
Lemma Mount_bind_refused_once :
  invocations
    (trace_of (Mounter.Mount (E := scripted) aMounter "/exports/a" "/mnt/a" ""
                             ["bind"; "noatime"] (mountRefused, []))) =
  [(OsExec, "mount", ["-o"; "bind"; "/exports/a"; "/mnt/a"])] /\
  invocations
    (trace_of (execMounter.Mount (E := scripted) "/exports/a" "/mnt/a" ""
                                 ["bind"; "noatime"] (mountRefused, []))) =
  [(MountExec Mount.defaultExecTimeout, "mount",
    ["-o"; "bind"; "/exports/a"; "/mnt/a"])].
Proof. split; reflexivity. Qed.

(** ** Format and mount *)

Section FormatAndMount.
Import GoStrings Mount SafeFormatAndMount.
Context {E : Env}.

Ltac go_steps :=
  unfold bind, ret, glog, emit, runCommand, interfaceMount, openAndRead;
  cbn [fst snd].

Ltac answer :=
  match goal with
  | |- context [command ?E' ?v ?c ?a ?w] =>
      let out := fresh "out" in
      let err := fresh "err" in
      let w' := fresh "w" in
      destruct (command E' v c a w) as [[out err] w']; cbn [fst snd]
  | |- context [mountOp ?E' ?s ?t ?f ?o ?w] =>
      let err := fresh "merr" in
      let w' := fresh "w" in
      destruct (mountOp E' s t f o w) as [err w']; cbn [fst snd]
  end.


Ltac split_run :=
  repeat (cbn [fst snd]; first
    [ answer
    | match goal with
      | |- context [match ?x with _ => _ end] => is_var x; destruct x
      | |- context [if ?b then _ else _] => destruct b eqn:?
      end ]).


Lemma len_zero (s : string) : (len s =? 0) = String.eqb s "".
Proof. destruct s; reflexivity. Qed.

Ltac finish_trace :=
  cbn [fst snd];
  unfold mountCalls, invocations, logged;
  rewrite ?omap_app; cbn [omap list_omap mountCall invocation];
  rewrite ?app_nil_r, <- ?app_assoc; cbn [app].

(** C10.  [formatAndMount] appends "defaults" to the caller's options
    before anything else: every call of the underlying [Mount] it makes,
    the first attempt and the retry after formatting alike, carries the
    caller's options followed by "defaults", and that list is never the
    caller's own. *)
Theorem formatAndMount_adds_defaults (source target fstype : string)
        (options : list string) (w : World E) (tr : list event) :
  let r := formatAndMount source target fstype options (w, tr) in
  options ++ ["defaults"] <> options /\
  exists calls,
    mountCalls (trace_of r) = mountCalls tr ++ calls /\
    Forall (fun c => snd c = options ++ ["defaults"]) calls.
Proof.
  intros r. split.
  { intros H. apply (f_equal length) in H. rewrite length_app in H.
    simpl in H. lia. }
  subst r. unfold formatAndMount, checkFsck, getDiskFormat, trace_of.
  go_steps. split_run.
  all: finish_trace.
  all: first [ by eexists; split; [reflexivity|repeat constructor]
             | by exists []; rewrite app_nil_r ].
Qed.

(** C6 (as amended).  When the check before the mount is not fatal and
    the first mount fails: if [lsblk] shows no filesystem, [mkfs.<type>] is
    run, for the caller's type or for "ext4" when the caller gave none;
    if it succeeds the mount is retried exactly once and its result
    returned, if it fails its error is returned and the mount is not
    retried.  If the disk holds a filesystem other than the non-empty type
    the caller asked for, the result is the conflict error that names both
    and no format command is run. *)
Theorem formatAndMount_after_failed_mount
        (source target fstype : string) (options : list string)
        (w w1 w2 w3 : World E) (fsckOut lsblkOut : string)
        (fsckErr : option error) (mountErr : error) :
  let opts := options ++ ["defaults"] in
  let r := formatAndMount source target fstype options (w, []) in
  let existing := diskFormat lsblkOut in
  command E SafeExec "fsck" ["-a"; source] w = ((fsckOut, fsckErr), w1) ->
  fsckErr <> Some (ExitError fsckErrorsUncorrected) ->
  mountOp E source target fstype opts w1 = (Some mountErr, w2) ->
  command E SafeExec "lsblk" ["-n"; "-o"; "FSTYPE"; source] w2
  = ((lsblkOut, None), w3) ->
  (existing = "" ->
   invocations (trace_of r) =
   [(SafeExec, "fsck", ["-a"; source]);
    (SafeExec, "lsblk", ["-n"; "-o"; "FSTYPE"; source]);
    (SafeExec, "mkfs." +:+ formatType fstype, formatArgs fstype source)] /\
   match command E SafeExec ("mkfs." +:+ formatType fstype)
                 (formatArgs fstype source) w3 with
   | ((_, None), w4) =>
       mountCalls (trace_of r) =
       [(source, target, fstype, opts);
        (source, target, formatType fstype, opts)] /\
       fst r = fst (mountOp E source target (formatType fstype) opts w4)
   | ((_, Some e), _) =>
       mountCalls (trace_of r) = [(source, target, fstype, opts)] /\
       fst r = Some e
   end) /\
  (existing <> "" -> fstype <> "" -> fstype <> existing ->
   fst r = Some (unexpectedFilesystem fstype existing mountErr) /\
   invocations (trace_of r) =
   [(SafeExec, "fsck", ["-a"; source]);
    (SafeExec, "lsblk", ["-n"; "-o"; "FSTYPE"; source])] /\
   mountCalls (trace_of r) = [(source, target, fstype, opts)]).
Proof.
  intros opts r existing Hfsck Hfatal Hmount Hlsblk.
  assert (Hcheck : forall tr, exists logs,
             checkFsck source fsckOut fsckErr (w1, tr) = (None, (w1, tr ++ logs)) /\
             invocations logs = [] /\ mountCalls logs = []).
  { intros tr. unfold checkFsck. go_steps.
    destruct fsckErr as [[|status| |]|]; try (by eexists [_]); try (by exists []; rewrite app_nil_r).
    destruct (status =? fsckErrorsCorrected); [by eexists [_]|].
    destruct (status =? fsckErrorsUncorrected) eqn:H4.
    { apply Z.eqb_eq in H4. by subst. }
    destruct (fsckErrorsUncorrected <? status); [by eexists [_]|].
    by exists []; rewrite app_nil_r. }
  subst r. unfold formatAndMount, getDiskFormat, trace_of.
  go_steps. rewrite Hfsck. cbn [fst snd].
  destruct (Hcheck (([] ++ [EvLog (V 4) "Checking for issues with fsck on disk: %s"]) ++
       [EvRun SafeExec "fsck" ["-a"; source]])) as (logs & -> & Hl1 & Hl2).
  cbn [fst snd]. fold opts. rewrite Hmount. cbn [fst snd].
  rewrite Hlsblk. cbn [fst snd]. fold existing.
  rewrite len_zero. fold (formatType fstype). fold (formatArgs fstype source).
  split.
  - intros ->. cbn [String.eqb].
    destruct (command E SafeExec ("mkfs." +:+ formatType fstype) _ w3)
      as [[mkfsOut [e|]] w4] eqn:Hmkfs; cbn [fst snd].
    + rewrite ?Hmkfs; cbn [fst snd]. rewrite !invocations_app, !mountCalls_app, Hl1, Hl2. done.
    + rewrite ?Hmkfs; cbn [fst snd].
      destruct (mountOp E source target (formatType fstype) opts w4) as [res w5].
      cbn [fst snd].
      rewrite !invocations_app, !mountCalls_app, Hl1, Hl2. done.
  - intros Hex Hfs Hne.
    destruct (String.eqb existing "") eqn:He; [by apply String.eqb_eq in He|].
    destruct (String.eqb fstype "") eqn:Hf; [by apply String.eqb_eq in Hf|].
    destruct (String.eqb fstype existing) eqn:Hfe; [by apply String.eqb_eq in Hfe|].
    cbn [orb fst snd].
    rewrite !invocations_app, !mountCalls_app, Hl1, Hl2. done.
Qed.


(** C7 (as amended).  The exit status of [fsck -a] decides: status 1
    (errors corrected) is logged and the mount goes on; status 4
    (uncorrected errors) makes [formatAndMount] return an error with no
    mount attempted; any other status leaves the mount attempted, and is
    logged exactly when it is greater than 4; a missing [fsck] is logged
    and the mount goes on. *)
Theorem fsck_exit_status_classification
        (source target fstype : string) (options : list string)
        (w w1 : World E) (out : string) (err : option error) :
  let r := formatAndMount source target fstype options (w, []) in
  let attempted :=
    exists rest,
      mountCalls (trace_of r) =
      (source, target, fstype, options ++ ["defaults"]) :: rest in
  command E SafeExec "fsck" ["-a"; source] w = ((out, err), w1) ->
  (err = Some (ExitError fsckErrorsCorrected) ->
   attempted /\
   In (Info, "Device %s has errors which were corrected by fsck.")
      (logged (trace_of r))) /\
  (err = Some (ExitError fsckErrorsUncorrected) ->
   fst r = Some (fsckUncorrected source out) /\
   mountCalls (trace_of r) = [] /\
   invocations (trace_of r) = [(SafeExec, "fsck", ["-a"; source])]) /\
  (forall status,
      err = Some (ExitError status) ->
      status <> fsckErrorsCorrected -> status <> fsckErrorsUncorrected ->
      attempted /\
      (In (Info, "`fsck` error %s") (logged (trace_of r)) <->
       fsckErrorsUncorrected < status)) /\
  (err = Some ErrExecutableNotFound ->
   attempted /\
   In (Warning,
       "'fsck' not found on system; continuing mount without running 'fsck'.")
      (logged (trace_of r))).
Proof.
  intros r attempted Hfsck. subst r attempted.
  unfold formatAndMount, checkFsck, getDiskFormat, trace_of.
  go_steps. rewrite Hfsck. cbn [fst snd].
  split; [|split; [|split]].
  - intros ->. cbn [Z.eqb fsckErrorsCorrected Pos.eqb]. split_run.
    all: finish_trace.
    all: split; [by eexists|simpl; tauto].
  - intros ->. cbn. done.
  - intros status -> H1 H4.
    destruct (status =? fsckErrorsCorrected) eqn:E1;
      [by apply Z.eqb_eq in E1|].
    destruct (status =? fsckErrorsUncorrected) eqn:E4;
      [by apply Z.eqb_eq in E4|].
    destruct (fsckErrorsUncorrected <? status) eqn:Egt.
    + apply Z.ltb_lt in Egt. split_run.
      all: finish_trace.
      all: split; [by eexists|split; [done|simpl; tauto]].
    + apply Z.ltb_ge in Egt. split_run.
      all: finish_trace.
      all: split; [by eexists|].
      all: split; [|lia].
      all: intros Hin; exfalso; simpl in Hin.
      all: repeat (destruct Hin as [Hin|Hin]; [discriminate Hin|]); done.
  - intros ->. split_run.
    all: finish_trace.
    all: split; [by eexists|simpl; tauto].
Qed.

End FormatAndMount.

Lemma formatAndMount_after_failed_mount_witness :
  invocations
    (trace_of (SafeFormatAndMount.formatAndMount (E := scripted)
                 "/dev/sdb" "/mnt/data" "" ["rw"] (blankDisk, []))) =
  [(SafeExec, "fsck", ["-a"; "/dev/sdb"]);
   (SafeExec, "lsblk", ["-n"; "-o"; "FSTYPE"; "/dev/sdb"]);
   (SafeExec, "mkfs.ext4", ["-F"; "/dev/sdb"])] /\
  mountCalls
    (trace_of (SafeFormatAndMount.formatAndMount (E := scripted)
                 "/dev/sdb" "/mnt/data" "" ["rw"] (blankDisk, []))) =
  [("/dev/sdb", "/mnt/data", "", ["rw"; "defaults"]);
   ("/dev/sdb", "/mnt/data", "ext4", ["rw"; "defaults"])] /\
  fst (SafeFormatAndMount.formatAndMount (E := scripted)
         "/dev/sdb" "/mnt/data" "" ["rw"] (blankDisk, [])) = None.
Proof.
  edestruct (formatAndMount_after_failed_mount (E := scripted)
               "/dev/sdb" "/mnt/data" "" ["rw"] blankDisk) as [H _];
    [reflexivity | discriminate | reflexivity | reflexivity |].
  destruct (H eq_refl) as [H1 [H2 H3]].
  split; [exact H1 | split; [exact H2 | exact H3]].
Defined.

(** C6 as stated fails: when [mkfs] itself fails, the mount is not retried. *)
Lemma formatAndMount_mkfs_fails_no_retry :
  mountCalls
    (trace_of (SafeFormatAndMount.formatAndMount (E := scripted)
                 "/dev/sdb" "/mnt/data" "" ["rw"] (blankDiskMkfsFails, []))) =
  [("/dev/sdb", "/mnt/data", "", ["rw"; "defaults"])] /\
  invocations
    (trace_of (SafeFormatAndMount.formatAndMount (E := scripted)
                 "/dev/sdb" "/mnt/data" "" ["rw"] (blankDiskMkfsFails, []))) =
  [(SafeExec, "fsck", ["-a"; "/dev/sdb"]);
   (SafeExec, "lsblk", ["-n"; "-o"; "FSTYPE"; "/dev/sdb"]);
   (SafeExec, "mkfs.ext4", ["-F"; "/dev/sdb"])] /\
  fst (SafeFormatAndMount.formatAndMount (E := scripted)
         "/dev/sdb" "/mnt/data" "" ["rw"] (blankDiskMkfsFails, [])) =
  Some (ExitError 1).
Proof. repeat split; reflexivity. Qed.

Lemma fsck_exit_status_classification_witness :
  (exists rest,
      mountCalls
        (trace_of (SafeFormatAndMount.formatAndMount (E := scripted)
                     "/dev/sdb" "/mnt/data" "ext4" [] (fsckExits 8, []))) =
      ("/dev/sdb", "/mnt/data", "ext4", ["defaults"]) :: rest) /\
  (In (Info, "`fsck` error %s")
      (logged
         (trace_of (SafeFormatAndMount.formatAndMount (E := scripted)
                      "/dev/sdb" "/mnt/data" "ext4" [] (fsckExits 8, [])))) <->
   Mount.fsckErrorsUncorrected < 8).
Proof.
  edestruct (fsck_exit_status_classification (E := scripted)
               "/dev/sdb" "/mnt/data" "ext4" [] (fsckExits 8))
    as (_ & _ & H & _); [reflexivity|].
  apply (H 8); [reflexivity | discriminate | discriminate].
Defined.

(** C7 as stated fails: exit status 2 of fsck is neither 1 nor 4, the
    mount is attempted, and nothing is logged about the status. *)
Lemma fsck_status_2_not_logged :
  logged
    (trace_of (SafeFormatAndMount.formatAndMount (E := scripted)
                 "/dev/sdb" "/mnt/data" "ext4" [] (fsckExits 2, []))) =
  [(V 4, "Checking for issues with fsck on disk: %s");
   (V 4, "Attempting to mount disk: %s %s %s")] /\
  mountCalls
    (trace_of (SafeFormatAndMount.formatAndMount (E := scripted)
                 "/dev/sdb" "/mnt/data" "ext4" [] (fsckExits 2, []))) =
  [("/dev/sdb", "/mnt/data", "ext4", ["defaults"])].
Proof. split; reflexivity. Qed.

(** ** Consistent reads of the mount table *)

Section ConsistentRead.
Import GoStrings Mount.

Lemma readProcMounts_lines_Some (lines : list string) :
  forall h mps h' out,
    readProcMounts_lines lines h (Some mps) = Ok (h', out) ->
    readProcMounts_lines lines h None = Ok (h', None) /\
    exists mps', out = Some mps'.
Proof.
  induction lines as [|line rest IH]; intros h mps h' out H.
  - simpl in *. inversion H; subst. eauto.
  - cbn [readProcMounts_lines] in *.
    destruct (Fields line) as [|f0 [|f1 [|f2 [|f3 [|f4 [|f5 [|f6 fs]]]]]]];
      try discriminate.
    destruct (Atoi f4); [|discriminate].
    destruct (Atoi f5); [|discriminate].
    eapply IH. exact H.
Qed.

Lemma tableMounts_hash (content : string) (h : Z) (out : option (list MountPoint)) :
  readProcMountsFrom content (Some []) = Ok (h, out) ->
  tableHash content = Some h /\ exists mps, out = Some mps /\ tableMounts content = Some mps.
Proof.
  intros H. unfold tableHash, tableMounts. rewrite H.
  unfold readProcMountsFrom in *.
  apply readProcMounts_lines_Some in H as [-> [mps ->]]. eauto.
Qed.

Lemma readProcMounts_reading (contents : nat -> string) (k : nat)
      (path : string) (out : option (list MountPoint)) (tr : list event) :
  readProcMounts (E := scripted) path out (reading contents k, tr) =
  (readProcMountsFrom (contents k) out,
   (reading contents (S k), tr ++ [EvOpen path])).
Proof.
  unfold readProcMounts, bind, openAndRead, ret. simpl.
  by destruct (readProcMountsFrom (contents k) out).
Qed.

Lemma listProcMounts_tries_reads (contents : nat -> string) (path : string) :
  forall tries k hash1 tr,
    exists n res,
      (n <= tries)%nat /\
      listProcMounts_tries (E := scripted) tries path hash1
                           (reading contents k, tr) =
      (res, (reading contents (k + n), tr ++ replicate n (EvOpen path))).
Proof.
  induction tries as [|tries IH]; intros k hash1 tr.
  - exists O, (Err (inconsistentSnapshot path)). simpl. unfold ret.
    by rewrite app_nil_r, Nat.add_0_r.
  - cbn [listProcMounts_tries]. unfold bind at 1.
    rewrite readProcMounts_reading.
    destruct (readProcMountsFrom (contents k) (Some [])) as [[hash2 mps]|e].
    + destruct (hash1 =? hash2).
      * exists 1%nat, (Ok (default [] mps)). unfold ret.
        rewrite Nat.add_1_r. split; [lia|done].
      * destruct (IH (S k) hash2 (tr ++ [EvOpen path])) as (n & res & Hn & ->).
        exists (S n), res. split; [lia|].
        rewrite <- app_assoc. simpl. do 3 f_equal. lia.
    + exists 1%nat, (Err e). unfold ret.
      rewrite Nat.add_1_r. split; [lia|done].
Qed.

Lemma listProcMounts_tries_Ok (contents : nat -> string) (path : string) :
  forall tries k hash1 tr mps,
    fst (listProcMounts_tries (E := scripted) tries path hash1
                              (reading contents k, tr)) = Ok mps ->
    exists j, (k <= j < k + tries)%nat /\
      tableMounts (contents j) = Some mps /\
      tableHash (contents j) =
      (if decide (j = k) then Some hash1 else tableHash (contents (pred j))) /\
      (forall i, (k <= i < j)%nat -> is_Some (tableHash (contents i))).
Proof.
  induction tries as [|tries IH]; intros k hash1 tr mps H.
  - discriminate H.
  - cbn [listProcMounts_tries] in H. unfold bind at 1 in H.
    rewrite readProcMounts_reading in H.
    destruct (readProcMountsFrom (contents k) (Some [])) as [[hash2 out]|e] eqn:Hread;
      [|discriminate H].
    apply tableMounts_hash in Hread as (Hh & mps' & -> & Hm).
    destruct (hash1 =? hash2) eqn:Heq.
    + apply Z.eqb_eq in Heq. subst hash2. simpl in H. inversion H; subst.
      exists k. split; [lia|]. split; [done|]. split.
      * by rewrite decide_True.
      * intros i Hi. lia.
    + apply IH in H as (j & Hj & Hmj & Hhj & Hall).
      exists j. split; [lia|]. split; [done|]. split.
      * rewrite decide_False by lia.
        destruct (decide (j = S k)) as [->|Hne]; [by simpl; rewrite Hhj, Hh|done].
      * intros i Hi. destruct (decide (i = k)) as [->|]; [by rewrite Hh|].
        apply Hall. lia.
Qed.

Lemma listProcMounts_tries_unstable (contents : nat -> string) (path : string) :
  forall tries k hash1 tr,
    (forall j, (k <= j < k + tries)%nat -> is_Some (tableMounts (contents j))) ->
    ((0 < tries)%nat -> tableHash (contents k) <> Some hash1) ->
    (forall j, (k <= j)%nat -> (S j < k + tries)%nat ->
               tableHash (contents j) <> tableHash (contents (S j))) ->
    fst (listProcMounts_tries (E := scripted) tries path hash1
                              (reading contents k, tr)) =
    Err (inconsistentSnapshot path).
Proof.
  induction tries as [|tries IH]; intros k hash1 tr Hwf Hfirst Hdiff.
  - reflexivity.
  - cbn [listProcMounts_tries]. unfold bind at 1.
    rewrite readProcMounts_reading.
    assert (Hk : (k <= k < k + S tries)%nat) by lia.
    destruct (Hwf k Hk) as [mps Hmps].
    unfold tableMounts in Hmps.
    destruct (readProcMountsFrom (contents k) (Some [])) as [[hash2 out]|e] eqn:Hread;
      [|discriminate Hmps].
    apply tableMounts_hash in Hread as (Hh & mps' & -> & Hm).
    destruct (hash1 =? hash2) eqn:Heq.
    + apply Z.eqb_eq in Heq. subst. rewrite Hh in Hfirst.
      exfalso. apply Hfirst; [lia|done].
    + apply IH.
      * intros j Hj. apply Hwf. lia.
      * intros Htries. rewrite <- Hh. intros Heq'.
        apply (Hdiff k); [lia|lia|done].
      * intros j Hj1 Hj2. apply Hdiff; lia.
Qed.

(** C2 (as amended).  [List] reads the mount table at most
    [1 + maxListTries] times (three retries after the first read) and does
    nothing else.  It returns mount points only when two consecutive reads
    hash identically, and then those of the later read.  For every
    sequence of well-formed mount tables in which no two consecutive reads
    within that bound hash identically, it returns the consistency error
    (and so no mount points). *)
Theorem listProcMounts_consistent_snapshot (contents : nat -> string) :
  let r := Mounter.List (E := scripted) (reading contents 0, []) in
  (exists n, (n <= 1 + maxListTries)%nat /\
             trace_of r = replicate n (EvOpen procMountsPath)) /\
  (forall mps, fst r = Ok mps ->
     exists k, (k < maxListTries)%nat /\
       is_Some (tableHash (contents k)) /\
       tableHash (contents k) = tableHash (contents (S k)) /\
       tableMounts (contents (S k)) = Some mps) /\
  ((forall k, (k <= maxListTries)%nat -> is_Some (tableMounts (contents k))) ->
   (forall k, (k < maxListTries)%nat ->
              tableHash (contents k) <> tableHash (contents (S k))) ->
   fst r = Err (inconsistentSnapshot procMountsPath)).
Proof.
  intros r.
  assert (Hr : r = match readProcMountsFrom (contents O) None with
                   | Ok (hash1, _) =>
                       listProcMounts_tries (E := scripted) maxListTries
                         procMountsPath hash1
                         (reading contents 1, [EvOpen procMountsPath])
                   | Err e =>
                       (Err e, (reading contents 1, [EvOpen procMountsPath]))
                   end).
  { subst r. unfold Mounter.List, listProcMounts. unfold bind at 1.
    rewrite readProcMounts_reading.
    by destruct (readProcMountsFrom (contents O) None) as [[hash1 out]|e]. }
  clearbody r. subst r.
  destruct (readProcMountsFrom (contents O) None) as [[hash1 out]|e] eqn:Hread.
  - assert (Hh : tableHash (contents O) = Some hash1).
    { unfold tableHash. by rewrite Hread. }
    split; [|split].
    + destruct (listProcMounts_tries_reads contents procMountsPath maxListTries
                  1%nat hash1 [EvOpen procMountsPath])
        as (n & res & Hn & ->).
      exists (S n). split; [lia|done].
    + intros mps H.
      apply listProcMounts_tries_Ok in H as (j & Hj & Hm & Hhj & Hall).
      destruct j as [|j]; [lia|]. exists j. split; [lia|].
      destruct (decide (S j = 1%nat)) as [Hj1|Hj1].
      * assert (j = O) by lia. subst j. rewrite Hh. split; [eauto|].
        split; [by rewrite Hhj|done].
      * simpl in Hhj. split; [apply Hall; lia|]. split; [by rewrite Hhj|done].
    + intros Hwf Hdiff. apply listProcMounts_tries_unstable.
      * intros j Hj. apply Hwf. unfold maxListTries in *. lia.
      * intros _. rewrite <- Hh. intros Heq.
        apply (Hdiff O); [unfold maxListTries; lia|done].
      * intros j Hj1 Hj2. apply Hdiff. lia.
  - split; [|split].
    + exists 1%nat. split; [unfold maxListTries; lia|done].
    + intros mps H. discriminate H.
    + intros Hwf _. destruct (Hwf O (Nat.le_0_l _)) as [mps Hm].
      unfold tableMounts in Hm.
      destruct (readProcMountsFrom (contents O) (Some [])) as [[h o]|e'] eqn:Hr;
        [|discriminate Hm].
      apply tableMounts_hash in Hr as (Hh & _).
      unfold tableHash in Hh. by rewrite Hread in Hh.
Qed.

End ConsistentRead.

(** ** Mount propagation *)

Section MountInfoRead.
Import GoStrings Mount.
Variable contents : nat -> string.
Variable path : string.

Lemma parseMountInfo_reading (k : nat) (tr : list event) :
  parseMountInfo (E := scripted) path (reading contents k, tr) =
  (parsedInfo (contents k), (reading contents (S k), tr ++ [EvOpen path])).
Proof.
  unfold parseMountInfo, bind, openAndRead, ret, parsedInfo. simpl.
  by destruct (parseMountInfo_lines (readLines (contents k)) []).
Qed.

Lemma getMountInfo_loop_reads :
  forall fuel k old tr,
    exists n res,
      (n <= fuel)%nat /\
      getMountInfo_loop (E := scripted) fuel path old (reading contents k, tr) =
      (res, (reading contents (k + n), tr ++ replicate n (EvOpen path))).
Proof.
  induction fuel as [|fuel IH]; intros k old tr.
  - exists O, None. simpl. unfold ret. by rewrite app_nil_r, Nat.add_0_r.
  - cbn [getMountInfo_loop]. unfold bind at 1. rewrite parseMountInfo_reading.
    destruct (parsedInfo (contents k)) as [new|e].
    + destruct (deepEqual old new).
      * exists 1%nat, (Some (Ok old)). unfold ret. rewrite Nat.add_1_r.
        split; [lia|done].
      * destruct (IH (S k) new (tr ++ [EvOpen path])) as (n & res & Hn & ->).
        exists (S n), res. split; [lia|].
        rewrite <- app_assoc. simpl. do 3 f_equal. lia.
    + exists 1%nat, (Some (Err e)). unfold ret. rewrite Nat.add_1_r.
      split; [lia|done].
Qed.

Lemma getMountInfo_loop_Ok :
  forall fuel k old tr infos,
    fst (getMountInfo_loop (E := scripted) fuel path old
                           (reading contents k, tr)) = Some (Ok infos) ->
    exists j, (k <= j < k + fuel)%nat /\
      parsedInfo (contents j) = Ok infos /\
      (if decide (j = k) then old = infos
       else parsedInfo (contents (pred j)) = Ok infos).
Proof.
  induction fuel as [|fuel IH]; intros k old tr infos H.
  - discriminate H.
  - cbn [getMountInfo_loop] in H. unfold bind at 1 in H.
    rewrite parseMountInfo_reading in H.
    destruct (parsedInfo (contents k)) as [new|e] eqn:Hk; [|discriminate H].
    unfold deepEqual in H. case_bool_decide as Heq.
    + subst new. simpl in H. inversion H; subst.
      exists k. split; [lia|]. split; [done|]. by rewrite decide_True.
    + apply IH in H as (j & Hj & Hpj & Hprev).
      exists j. split; [lia|]. split; [done|].
      rewrite decide_False by lia.
      destruct (decide (j = S k)) as [->|]; [simpl; by rewrite Hk, Hprev|done].
Qed.

Lemma getMountInfo_loop_Err :
  forall fuel k old tr e,
    fst (getMountInfo_loop (E := scripted) fuel path old
                           (reading contents k, tr)) = Some (Err e) ->
    exists j, (k <= j < k + fuel)%nat /\ parsedInfo (contents j) = Err e.
Proof.
  induction fuel as [|fuel IH]; intros k old tr e H.
  - discriminate H.
  - cbn [getMountInfo_loop] in H. unfold bind at 1 in H.
    rewrite parseMountInfo_reading in H.
    destruct (parsedInfo (contents k)) as [new|e'] eqn:Hk.
    + destruct (deepEqual old new); [discriminate H|].
      apply IH in H as (j & Hj & Hpj). exists j. split; [lia|done].
    + simpl in H. inversion H; subst. exists k. split; [lia|done].
Qed.

Lemma getMountInfo_loop_unstable :
  forall fuel k old tr,
    (forall j, (k <= j < k + fuel)%nat ->
               exists infos, parsedInfo (contents j) = Ok infos) ->
    ((0 < fuel)%nat -> parsedInfo (contents k) <> Ok old) ->
    (forall j, (k <= j)%nat -> (S j < k + fuel)%nat ->
               parsedInfo (contents j) <> parsedInfo (contents (S j))) ->
    getMountInfo_loop (E := scripted) fuel path old (reading contents k, tr) =
    (None, (reading contents (k + fuel), tr ++ replicate fuel (EvOpen path))).
Proof.
  induction fuel as [|fuel IH]; intros k old tr Hok Hfirst Hdiff.
  - simpl. unfold ret. by rewrite app_nil_r, Nat.add_0_r.
  - cbn [getMountInfo_loop]. unfold bind at 1. rewrite parseMountInfo_reading.
    assert (Hk : (k <= k < k + S fuel)%nat) by lia.
    destruct (Hok k Hk) as [new Hnew]. rewrite Hnew.
    unfold deepEqual. case_bool_decide as Heq.
    + subst new. exfalso. apply Hfirst; [lia|done].
    + rewrite IH.
      * rewrite <- app_assoc. simpl. do 3 f_equal. lia.
      * intros j Hj. apply Hok. lia.
      * intros Hf. rewrite <- Hnew. intros Heq'.
        apply (Hdiff k); [lia|lia|done].
      * intros j Hj1 Hj2. apply Hdiff; lia.
Qed.

Lemma getMountInfo_loop_stable :
  forall fuel k old tr j infos,
    (k <= j < k + fuel)%nat ->
    (forall i, (k <= i < j)%nat -> exists x, parsedInfo (contents i) = Ok x) ->
    parsedInfo (contents j) = Ok infos ->
    (if decide (j = k) then old = infos
     else parsedInfo (contents k) <> Ok old /\
          parsedInfo (contents (pred j)) = Ok infos) ->
    (forall i, (k <= i)%nat -> (S i < j)%nat ->
               parsedInfo (contents i) <> parsedInfo (contents (S i))) ->
    getMountInfo_loop (E := scripted) fuel path old (reading contents k, tr) =
    (Some (Ok infos),
     (reading contents (S j), tr ++ replicate (S j - k) (EvOpen path))).
Proof.
  induction fuel as [|fuel IH]; intros k old tr j infos Hj Hok Hpj Hprev Hdiff.
  - lia.
  - cbn [getMountInfo_loop]. unfold bind at 1. rewrite parseMountInfo_reading.
    destruct (decide (j = k)) as [->|Hne].
    + subst old. rewrite Hpj. unfold deepEqual. rewrite bool_decide_eq_true_2 by done.
      unfold ret. replace (S k - k)%nat with 1%nat by lia. done.
    + destruct Hprev as [Hfirst Hprev].
      assert (Hk : (k <= k < j)%nat) by lia.
      destruct (Hok k Hk) as [new Hnew]. rewrite Hnew.
      unfold deepEqual. rewrite bool_decide_eq_false_2.
      2:{ intros ->. by rewrite Hnew in Hfirst. }
      rewrite (IH (S k) new _ j infos).
      * rewrite <- app_assoc. simpl.
        replace (S j - k)%nat with (S (j - k))%nat by lia. done.
      * lia.
      * intros i Hi. apply Hok. lia.
      * done.
      * destruct (decide (j = S k)) as [->|Hne'].
        -- simpl in Hprev. rewrite Hnew in Hprev. by inversion Hprev.
        -- split; [|done]. rewrite <- Hnew. intros Heq.
           apply (Hdiff k); [lia|lia|done].
      * intros i Hi1 Hi2. apply Hdiff; lia.
Qed.


Lemma getMountInfo_reading (fuel : nat) :
  getMountInfo (E := scripted) fuel path (reading contents 0, []) =
  match parsedInfo (contents O) with
  | Ok old =>
      getMountInfo_loop (E := scripted) fuel path old
                        (reading contents 1, [EvOpen path])
  | Err e => (Some (Err e), (reading contents 1, [EvOpen path]))
  end.
Proof.
  unfold getMountInfo. unfold bind at 1. rewrite parseMountInfo_reading.
  by destruct (parsedInfo (contents O)).
Qed.

(** While every read differs from the one before, [getMountInfo] keeps
    reading: no number of iterations makes it return. *)
Lemma getMountInfo_unstable (fuel : nat) :
  (forall k, (k <= fuel)%nat -> exists infos, parsedInfo (contents k) = Ok infos) ->
  (forall k, (k < fuel)%nat ->
             parsedInfo (contents k) <> parsedInfo (contents (S k))) ->
  getMountInfo (E := scripted) fuel path (reading contents 0, []) =
  (None, (reading contents (S fuel), replicate (S fuel) (EvOpen path))).
Proof.
  intros Hok Hdiff. rewrite getMountInfo_reading.
  destruct (Hok O (Nat.le_0_l _)) as [old Hold]. rewrite Hold.
  rewrite getMountInfo_loop_unstable.
  - done.
  - intros j Hj. apply Hok. lia.
  - intros Hf. rewrite <- Hold. intros Heq. apply (Hdiff O); [lia|done].
  - intros j Hj1 Hj2. apply Hdiff. lia.
Qed.

(** C3 (as amended).  [getMountInfo] accepts a snapshot only after two
    consecutive reads that parse to the same entries, and returns an error
    only when a read fails.  Its loop has no bound: as long as every read
    differs from the one before, no number of iterations makes it return,
    and it returns at the first pair of consecutive reads that agree. *)
Theorem getMountInfo_reads_until_stable (fuel : nat) :
  let r := getMountInfo (E := scripted) fuel path (reading contents 0, []) in
  (forall infos, fst r = Some (Ok infos) ->
     exists k, (k < fuel)%nat /\
       parsedInfo (contents k) = Ok infos /\
       parsedInfo (contents (S k)) = Ok infos) /\
  (forall e, fst r = Some (Err e) ->
     exists k, (k <= fuel)%nat /\ parsedInfo (contents k) = Err e) /\
  ((forall k, (k <= fuel)%nat ->
              exists infos, parsedInfo (contents k) = Ok infos) ->
   (forall k, (k < fuel)%nat ->
              parsedInfo (contents k) <> parsedInfo (contents (S k))) ->
   fst r = None /\ trace_of r = replicate (S fuel) (EvOpen path)) /\
  (forall k infos,
     (k < fuel)%nat ->
     (forall i, (i < k)%nat ->
                (exists x, parsedInfo (contents i) = Ok x) /\
                parsedInfo (contents i) <> parsedInfo (contents (S i))) ->
     parsedInfo (contents k) = Ok infos ->
     parsedInfo (contents (S k)) = Ok infos ->
     fst r = Some (Ok infos) /\
     trace_of r = replicate (S (S k)) (EvOpen path)).
Proof.
  intros r. split_and!.
  - intros infos H. subst r. rewrite getMountInfo_reading in H.
    destruct (parsedInfo (contents O)) as [old|e] eqn:H0; [|discriminate H].
    apply getMountInfo_loop_Ok in H as (j & Hj & Hpj & Hprev).
    destruct j as [|j]; [lia|]. exists j. split; [lia|].
    destruct (decide (S j = 1%nat)) as [Hj1|Hj1].
    + assert (j = O) by lia. subst. by rewrite H0.
    + done.
  - intros e H. subst r. rewrite getMountInfo_reading in H.
    destruct (parsedInfo (contents O)) as [old|e'] eqn:H0.
    + apply getMountInfo_loop_Err in H as (j & Hj & Hpj).
      exists j. split; [lia|done].
    + inversion H; subst. exists O. split; [lia|done].
  - intros Hok Hdiff. subst r. by rewrite getMountInfo_unstable.
  - intros k infos Hk Hbefore Hpk Hpk'. subst r. rewrite getMountInfo_reading.
    destruct (parsedInfo (contents O)) as [old|e] eqn:H0.
    2:{ destruct k as [|k]; [by rewrite H0 in Hpk|].
        destruct (Hbefore O (Nat.lt_0_succ _)) as [[x Hx] _].
        by rewrite H0 in Hx. }
    rewrite (getMountInfo_loop_stable fuel 1%nat old _ (S k) infos).
    + replace (S (S k) - 1)%nat with (S k) by lia. done.
    + lia.
    + intros i Hi. destruct (decide (i = k)) as [->|Hik]; [eauto|].
      assert (Hlt : (i < k)%nat) by lia. by destruct (Hbefore i Hlt).
    + done.
    + destruct (decide (S k = 1%nat)) as [Hk1|Hk1].
      * assert (k = O) by lia. subst k. rewrite H0 in Hpk. by inversion Hpk.
      * split; [|done]. rewrite <- H0. intros Heq.
        assert (H0k : (0 < k)%nat) by lia.
        destruct (Hbefore O H0k) as [_ Hd]. by apply Hd.
    + intros i Hi1 Hi2. assert (Hlt : (i < k)%nat) by lia.
      by destruct (Hbefore i Hlt).
Qed.

End MountInfoRead.

Section Shared.
Import GoStrings Mount.
Context {E : Env}.

Lemma parseMountInfo_opens (filename : string) (w : World E) (tr : list event) :
  exists res w',
    parseMountInfo filename (w, tr) = (res, (w', tr ++ [EvOpen filename])).
Proof.
  unfold parseMountInfo, bind, openAndRead, ret. cbn [fst snd].
  destruct (readFile E filename w) as [[content|e] w']; eauto.
Qed.

Lemma getMountInfo_loop_opens (filename : string) :
  forall fuel old (w : World E) tr,
    exists res w' n,
      getMountInfo_loop fuel filename old (w, tr) =
      (res, (w', tr ++ replicate n (EvOpen filename))).
Proof.
  induction fuel as [|fuel IH]; intros old w tr.
  - exists None, w, O. simpl. unfold ret. by rewrite app_nil_r.
  - cbn [getMountInfo_loop]. unfold bind at 1.
    destruct (parseMountInfo_opens filename w tr) as (res & w' & ->).
    destruct res as [new|e].
    + destruct (deepEqual old new).
      * by exists (Some (Ok old)), w', 1%nat.
      * destruct (IH new w' (tr ++ [EvOpen filename])) as (res & w'' & n & ->).
        exists res, w'', (S n). by rewrite <- app_assoc.
    + by exists (Some (Err e)), w', 1%nat.
Qed.

Lemma getMountInfo_opens (fuel : nat) (filename : string)
      (w : World E) (tr : list event) :
  exists res w' n,
    getMountInfo fuel filename (w, tr) =
    (res, (w', tr ++ replicate n (EvOpen filename))).
Proof.
  unfold getMountInfo. unfold bind at 1.
  destruct (parseMountInfo_opens filename w tr) as (res & w' & ->).
  destruct res as [old|e].
  - destruct (getMountInfo_loop_opens filename fuel old w'
                                      (tr ++ [EvOpen filename]))
      as (res & w'' & n & ->).
    exists res, w'', (S n). by rewrite <- app_assoc.
  - by exists (Some (Err e)), w', 1%nat.
Qed.

(** More iterations do not change a run that has returned. *)
Lemma getMountInfo_loop_more_fuel (filename : string) :
  forall fuel fuel' old (st st' : state E) res,
    (fuel <= fuel')%nat ->
    getMountInfo_loop fuel filename old st = (Some res, st') ->
    getMountInfo_loop fuel' filename old st = (Some res, st').
Proof.
  induction fuel as [|fuel IH]; intros fuel' old st st' res Hle H.
  - discriminate H.
  - destruct fuel' as [|fuel']; [lia|].
    cbn [getMountInfo_loop] in *. unfold bind in *.
    destruct (parseMountInfo filename st) as [[new|e] st1]; [|done].
    destruct (deepEqual old new); [done|].
    apply (IH fuel'); [lia|done].
Qed.

Lemma getMountInfo_more_fuel (filename : string) (fuel fuel' : nat)
      (st st' : state E) (res : result (list mountInfo)) :
  (fuel <= fuel')%nat ->
  getMountInfo fuel filename st = (Some res, st') ->
  getMountInfo fuel' filename st = (Some res, st').
Proof.
  intros Hle. unfold getMountInfo, bind.
  destruct (parseMountInfo filename st) as [[old|e] st1]; [|done].
  by apply getMountInfo_loop_more_fuel.
Qed.

Lemma invocations_opens (n : nat) (filename : string) :
  invocations (replicate n (EvOpen filename)) = [].
Proof. induction n; [done|]. simpl. done. Qed.

Lemma isShared_run (fuel : nat) (path filename : string)
      (w : World E) (tr : list event) :
  exists res w' n,
    isShared fuel path filename (w, tr) =
    (res, (w', tr ++ replicate n (EvOpen filename))) /\
    match fst (getMountInfo fuel filename (w, tr)) with
    | None => res = None
    | Some (Err e) => res = Some (Err e)
    | Some (Ok infos) => res = Some (isShared_in path infos)
    end.
Proof.
  unfold isShared. unfold bind at 1.
  destruct (getMountInfo_opens fuel filename w tr) as (res & w' & n & ->).
  cbn [fst].
  destruct res as [[infos|e]|]; unfold ret; eauto 10.
Qed.

Lemma findMount_last (path : string) (infos : list mountInfo) :
  match findMount path infos with
  | Some info =>
      exists i, infos !! i = Some info /\
        HasPrefix path (mountPoint info) = true /\
        forall j info', (i < j)%nat -> infos !! j = Some info' ->
                        HasPrefix path (mountPoint info') = false
  | None =>
      forall info, In info infos -> HasPrefix path (mountPoint info) = false
  end.
Proof.
  unfold findMount.
  induction infos as [|x l IH] using rev_ind.
  - simpl. intros info [].
  - rewrite rev_unit. cbn [find].
    destruct (HasPrefix path (mountPoint x)) eqn:Hx.
    + exists (length l). split; [|split; [done|]].
      * by rewrite lookup_app_r, Nat.sub_diag by lia.
      * intros j info' Hj Hl. apply lookup_lt_Some in Hl.
        rewrite length_app in Hl. simpl in Hl. lia.
    + destruct (find _ (rev l)) as [info|].
      * destruct IH as (i & Hi & Hp & Hlast).
        exists i. split; [|split; [done|]].
        -- by apply lookup_app_l_Some.
        -- intros j info' Hj Hl.
           destruct (decide (j < length l)%nat) as [Hlt|Hge].
           ++ rewrite lookup_app_l in Hl by done. eauto.
           ++ rewrite lookup_app_r in Hl by lia.
              destruct (j - length l)%nat; simpl in Hl; [|done].
              by inversion Hl; subst.
      * intros info Hin. apply in_app_or in Hin as [Hin|[<-|[]]]; eauto.
Qed.

Lemma hasSharedOpt_spec (info : mountInfo) :
  hasSharedOpt info = true <->
  exists opt, In opt (optional info) /\ HasPrefix opt "shared:" = true.
Proof. unfold hasSharedOpt. apply existsb_exists. Qed.

(** C4.  Over the entries [getMountInfo] returned, [isShared] selects the
    entry of greatest index whose mount point is a prefix of the path (the
    first one met scanning backward from the last entry); it returns true
    iff an optional field of that entry begins with "shared:"; and when no
    entry's mount point is a prefix of the path it returns an error. *)
Theorem isShared_selects_last_prefix (fuel : nat) (path filename : string)
        (st st' : state E) (infos : list mountInfo) :
  getMountInfo fuel filename st = (Some (Ok infos), st') ->
  isShared fuel path filename st = (Some (isShared_in path infos), st') /\
  match isShared_in path infos with
  | Ok shared =>
      exists i info,
        infos !! i = Some info /\
        HasPrefix path (mountPoint info) = true /\
        (forall j info', (i < j)%nat -> infos !! j = Some info' ->
                         HasPrefix path (mountPoint info') = false) /\
        (shared = true <->
         exists opt, In opt (optional info) /\ HasPrefix opt "shared:" = true)
  | Err e =>
      (forall info, In info infos -> HasPrefix path (mountPoint info) = false) /\
      e = Errorf "cannot find mount point for %q" [FStr path]
  end /\
  ((forall info, In info infos -> HasPrefix path (mountPoint info) = false) ->
   exists e, isShared_in path infos = Err e).
Proof.
  intros Hget. split; [|split].
  - unfold isShared. unfold bind at 1. by rewrite Hget.
  - unfold isShared_in. pose proof (findMount_last path infos) as H.
    destruct (findMount path infos) as [info|].
    + destruct H as (i & Hi & Hp & Hlast).
      exists i, info. split_and!; try done. apply hasSharedOpt_spec.
    + done.
  - intros Hnone. unfold isShared_in.
    pose proof (findMount_last path infos) as H.
    destruct (findMount path infos) as [info|]; [|eauto].
    destruct H as (i & Hi & Hp & _).
    apply list_elem_of_lookup_2, list_elem_of_In, Hnone in Hi. congruence.
Qed.

Lemma doMakeShared_run (fuel : nat)
      (path file mountCmd : string) (mountArgs : list string)
      (w : World E) (tr : list event) :
  let bindArgs := mountArgs ++ ["--bind"; path; path] in
  let rsharedArgs := mountArgs ++ ["--make-rshared"; path] in
  let s := isShared fuel path file (w, tr) in
  let r := doMakeShared fuel path file mountCmd mountArgs (w, tr) in
  match fst s with
  | Some (Ok true) =>
      fst r = Some None /\ invocations (trace_of r) = invocations tr
  | Some (Ok false) =>
      match command E OsExec mountCmd bindArgs (world_of s) with
      | ((_, None), _) =>
          invocations (trace_of r) =
          invocations tr ++ [(OsExec, mountCmd, bindArgs);
                             (OsExec, mountCmd, rsharedArgs)]
      | ((_, Some e), _) =>
          invocations (trace_of r) =
          invocations tr ++ [(OsExec, mountCmd, bindArgs)] /\
          fst r = Some (Some (Errorf "failed to bind-mount %s: %v"
                                     [FStr path; FErr e]))
      end
  | Some (Err e) =>
      fst r = Some (Some e) /\ invocations (trace_of r) = invocations tr
  | None => fst r = None
  end.
Proof.
  intros bindArgs rsharedArgs s r.
  destruct (isShared_run fuel path file w tr) as (res & w' & n & Hs & _).
  subst s r. unfold doMakeShared, bind. rewrite !Hs.
  cbn [fst snd world_of].
  destruct res as [[[|]|e]|].
  - unfold glog, emit, ret, trace_of. cbn [fst snd].
    rewrite !invocations_app, invocations_opens. simpl.
    by rewrite !app_nil_r.
  - unfold glog, emit, ret, runCommand, trace_of. cbn [fst snd].
    fold bindArgs rsharedArgs.
    destruct (command E OsExec mountCmd bindArgs w') as [[out [e|]] w2] eqn:Hb;
      cbn [fst snd].
    + rewrite !invocations_app, invocations_opens. simpl.
      by rewrite ?app_nil_r, <- ?app_assoc.
    + destruct (command E OsExec mountCmd rsharedArgs w2) as [[out2 [e|]] w3];
        cbn [fst snd]; rewrite !invocations_app, invocations_opens; simpl;
        by rewrite ?app_nil_r, <- ?app_assoc.
  - unfold ret, trace_of. cbn [fst snd].
    rewrite ?invocations_app, invocations_opens. by rewrite ?app_nil_r.
  - done.
Qed.

(** C5 (as amended).  When the path is detected on a shared mount,
    [doMakeShared] runs no command and returns nil.  When it is detected
    as not shared, [doMakeShared] runs one bind mount of the path onto
    itself and, if that succeeds, one [--make-rshared] of the path; if the
    bind mount fails it returns the failure and runs nothing more.  Hence
    a second call that detects the path as shared adds no command to those
    of the first. *)
Theorem doMakeShared_idempotent (fuel : nat)
        (path file mountCmd : string) (mountArgs : list string)
        (w : World E) (tr : list event) :
  let bindArgs := mountArgs ++ ["--bind"; path; path] in
  let rsharedArgs := mountArgs ++ ["--make-rshared"; path] in
  let s := isShared fuel path file (w, tr) in
  let r := doMakeShared fuel path file mountCmd mountArgs (w, tr) in
  match fst s with
  | Some (Ok true) =>
      fst r = Some None /\ invocations (trace_of r) = invocations tr
  | Some (Ok false) =>
      match command E OsExec mountCmd bindArgs (world_of s) with
      | ((_, None), _) =>
          invocations (trace_of r) =
          invocations tr ++ [(OsExec, mountCmd, bindArgs);
                             (OsExec, mountCmd, rsharedArgs)]
      | ((_, Some e), _) =>
          invocations (trace_of r) =
          invocations tr ++ [(OsExec, mountCmd, bindArgs)] /\
          fst r = Some (Some (Errorf "failed to bind-mount %s: %v"
                                     [FStr path; FErr e]))
      end
  | Some (Err e) =>
      fst r = Some (Some e) /\ invocations (trace_of r) = invocations tr
  | None => fst r = None
  end /\
  (forall fuel',
      fst (isShared fuel' path file (snd r)) = Some (Ok true) ->
      let r' := doMakeShared fuel' path file mountCmd mountArgs (snd r) in
      fst r' = Some None /\
      invocations (trace_of r') = invocations (trace_of r)).
Proof.
  intros bindArgs rsharedArgs s r. split.
  - apply doMakeShared_run.
  - intros fuel' Hshared r'.
    destruct (snd r) as [w1 tr1] eqn:Hr.
    pose proof (doMakeShared_run fuel' path file mountCmd mountArgs w1 tr1)
      as H.
    cbn zeta in H. rewrite Hshared in H. subst r'.
    unfold trace_of at 2. by rewrite Hr.
Qed.

End Shared.

Lemma listProcMounts_consistent_snapshot_witness :
  fst (Mounter.List (E := scripted) (reading growingTable 0, [])) =
  Err (Mount.inconsistentSnapshot Mount.procMountsPath).
Proof.
  apply (listProcMounts_consistent_snapshot growingTable).
  - intros k Hk. unfold Mount.maxListTries in Hk.
    destruct k as [|[|[|[|k]]]]; [vm_compute; eauto.. | lia].
  - intros k Hk. unfold Mount.maxListTries in Hk.
    destruct k as [|[|[|k]]]; [vm_compute; discriminate.. | lia].
Defined.

(** C2 as stated fails.  The mount tables [collidingTables] are
    well-formed and no two consecutive reads are equal, yet the first two
    hash identically and [List] returns the mount points of the second.
    In [truncatedTable] no two consecutive reads are equal either, and the
    second read does not parse: [List] returns the parse error, not the
    consistency error. *)
Lemma listProcMounts_accepts_hash_collision :
  (collidingTables 0 <> collidingTables 1 /\
   collidingTables 1 <> collidingTables 2 /\
   collidingTables 2 <> collidingTables 3 /\
   fst (Mounter.List (E := scripted) (reading collidingTables 0, [])) =
   Ok [ {| Mount.Device := "liquid"; Mount.Path := "/mnt";
           Mount.Type_ := "tmpfs"; Mount.Opts := ["rw"; "relatime"];
           Mount.Freq := 0; Mount.Pass := 0 |} ]) /\
  (truncatedTable 0 <> truncatedTable 1 /\
   truncatedTable 1 <> truncatedTable 2 /\
   truncatedTable 2 <> truncatedTable 3 /\
   fst (Mounter.List (E := scripted) (reading truncatedTable 0, [])) =
   Err (Errorf "wrong number of fields (expected %d, got %d): %s"
               [FInt 6; FInt 5;
                FStr ("tmpfs /mnt tmpfs rw,relatime 0" +:+ GoStrings.nl)])).
Proof.
  split; split_and!;
    first [ by vm_compute | vm_compute; reflexivity ].
Qed.

Lemma getMountInfo_reads_until_stable_witness :
  fst (Mount.getMountInfo (E := scripted) 5 Mount.procMountInfoPath
                          (reading settling 0, [])) =
  Some (Ok [ {| Mount.root := "/"; Mount.mountPoint := "/";
                Mount.optional := [] |};
             {| Mount.root := "/var/lib/kubelet";
                Mount.mountPoint := "/var/lib/kubelet";
                Mount.optional := ["shared:7"] |} ]) /\
  trace_of (Mount.getMountInfo (E := scripted) 5 Mount.procMountInfoPath
                               (reading settling 0, [])) =
  replicate 3 (EvOpen Mount.procMountInfoPath).
Proof.
  apply (getMountInfo_reads_until_stable settling Mount.procMountInfoPath 5).
  - lia.
  - intros i Hi. assert (i = O) by lia. subst i.
    split; [vm_compute; eauto | vm_compute; discriminate].
  - vm_compute. reflexivity.
  - vm_compute. reflexivity.
Defined.

Lemma flipping_parses (k : nat) :
  exists infos, parsedInfo (flipping k) = Ok infos.
Proof. unfold flipping. destruct (Nat.even k); vm_compute; eauto. Qed.

Lemma flipping_differs (k : nat) :
  parsedInfo (flipping k) <> parsedInfo (flipping (S k)).
Proof.
  unfold flipping. rewrite Nat.even_succ, <- Nat.negb_even.
  destruct (Nat.even k); vm_compute; discriminate.
Qed.

(** C3 as stated fails: on a mountinfo file that differs at every read,
    [getMountInfo] never returns, whatever number of iterations it is
    given; there is no bound after which it fails. *)
Lemma getMountInfo_never_returns :
  ~ exists fuel,
      fst (Mount.getMountInfo (E := scripted) fuel Mount.procMountInfoPath
                              (reading flipping 0, [])) <> None.
Proof.
  intros [fuel H]. apply H.
  rewrite getMountInfo_unstable; [done| |].
  - intros k _. apply flipping_parses.
  - intros k _. apply flipping_differs.
Qed.

Lemma isShared_selects_last_prefix_witness :
  Mount.isShared (E := scripted) 1 "/var/lib/kubelet/pods"
                 Mount.procMountInfoPath
                 (reading (fun _ => kubeletShared) 0, []) =
  (Some (Ok true),
   (reading (fun _ => kubeletShared) 2,
    replicate 2 (EvOpen Mount.procMountInfoPath))).
Proof.
  edestruct (isShared_selects_last_prefix (E := scripted) 1
               "/var/lib/kubelet/pods" Mount.procMountInfoPath
               (reading (fun _ => kubeletShared) 0, [])) as [H _];
    [vm_compute; reflexivity|].
  exact H.
Defined.

Lemma doMakeShared_idempotent_witness :
  invocations
    (trace_of (Mounter.MakeShared (E := scripted) 3 "/var/lib/kubelet"
                 (reading sharedAfterTwoReads 0, []))) =
  [(OsExec, "mount", ["--bind"; "/var/lib/kubelet"; "/var/lib/kubelet"]);
   (OsExec, "mount", ["--make-rshared"; "/var/lib/kubelet"])] /\
  invocations
    (trace_of (Mounter.MakeShared (E := scripted) 3 "/var/lib/kubelet"
                 (snd (Mounter.MakeShared (E := scripted) 3 "/var/lib/kubelet"
                         (reading sharedAfterTwoReads 0, []))))) =
  [(OsExec, "mount", ["--bind"; "/var/lib/kubelet"; "/var/lib/kubelet"]);
   (OsExec, "mount", ["--make-rshared"; "/var/lib/kubelet"])].
Proof.
  destruct (doMakeShared_idempotent (E := scripted) 3 "/var/lib/kubelet"
              Mount.procMountInfoPath Mount.defaultMountCommand []
              (reading sharedAfterTwoReads 0) []) as [H1 H2].
  split; [exact H1|].
  destruct (H2 3%nat) as [_ H3]; [vm_compute; reflexivity|].
  exact H3.
Defined.

(** C5 as stated fails: when the bind mount of a path that is not shared
    fails, no mark-recursively-shared operation follows. *)
Lemma doMakeShared_bind_refused :
  invocations
    (trace_of (Mounter.MakeShared (E := scripted) 3 "/var/lib/kubelet"
                 (bindRefused, []))) =
  [(OsExec, "mount", ["--bind"; "/var/lib/kubelet"; "/var/lib/kubelet"])] /\
  fst (Mounter.MakeShared (E := scripted) 3 "/var/lib/kubelet"
         (bindRefused, [])) =
  Some (Some (Errorf "failed to bind-mount %s: %v"
                     [FStr "/var/lib/kubelet"; FErr (ExitError 32)])).
Proof. split; vm_compute; reflexivity. Qed.

(** ** Mount pods *)

Section MountPods.
Import Volume.

Lemma podIn_deletePodLocked cache pod name uid :
  podIn (deletePodLocked cache pod) name uid =
  if decide (uid = UID pod) then None else podIn cache name uid.
Proof.
  unfold podIn, deletePodLocked. rewrite lookup_fmap.
  destruct (cache !! name) as [ps|]; simpl.
  - rewrite lookup_delete. by repeat case_decide; subst.
  - by case_decide.
Qed.

Local Abbreviation handles pod name :=
  (label pod ("mount." +:+ name) = "true").

Lemma podIn_addToPlugins pod :
  forall names cache name uid,
    podIn (addToPlugins names pod cache) name uid =
    if decide (uid = UID pod /\ name ∈ names /\ handles pod name)
    then Some pod else podIn cache name uid.
Proof.
  induction names as [|n names IH]; intros cache name uid.
  - simpl. case_decide as H; [|done]. destruct H as (_ & H & _). by inversion H.
  - cbn [addToPlugins].
    destruct (String.eqb (label pod ("mount." +:+ n)) "true") eqn:Hl.
    + apply String.eqb_eq in Hl. rewrite IH.
      unfold podIn at 1.
      destruct (decide (n = name)) as [->|Hne].
      * rewrite lookup_insert_eq. simpl.
        destruct (decide (uid = UID pod)) as [->|Hu].
        -- rewrite lookup_insert_eq.
           rewrite (decide_True (P := _ /\ name ∈ name :: names /\ _)).
           2:{ split_and!; [done|by left|done]. }
           by case_decide.
        -- rewrite lookup_insert_ne by done.
           rewrite !decide_False by tauto.
           unfold podIn. by destruct (cache !! name).
      * rewrite lookup_insert_ne by done. fold (podIn cache name uid).
        apply decide_ext. rewrite elem_of_cons. intuition congruence.
    + rewrite IH. apply decide_ext. rewrite elem_of_cons.
      assert (n = name -> ~ handles pod name).
      { intros ->. intros H. rewrite H in Hl. done. }
      intuition (subst; tauto).
Qed.

Lemma podIn_AddPod (m : mountPodManager) (pod : Pod) (name uid : string) :
  Namespace pod = namespace m ->
  podIn (pods (AddPod m pod)) name uid =
  if decide (uid = UID pod) then
    if decide (Phase pod = PodRunning /\ name ∈ pluginMgr m /\ handles pod name)
    then Some pod else None
  else podIn (pods m) name uid.
Proof.
  intros Hns. unfold AddPod. rewrite Hns, String.eqb_refl. cbn [negb].
  destruct (String.eqb (Phase pod) PodRunning) eqn:Hph; cbn [negb pods withPods].
  - apply String.eqb_eq in Hph. rewrite podIn_addToPlugins, podIn_deletePodLocked.
    repeat case_decide; intuition congruence.
  - apply String.eqb_neq in Hph. rewrite podIn_deletePodLocked.
    repeat case_decide; intuition congruence.
Qed.

Lemma keyed_AddPod (m : mountPodManager) (pod : Pod) :
  keyed (pods m) -> keyed (pods (AddPod m pod)).
Proof.
  intros Hk. destruct (String.eqb (Namespace pod) (namespace m)) eqn:Hns.
  - apply String.eqb_eq in Hns. intros name uid p.
    rewrite podIn_AddPod by done.
    repeat case_decide; intros; simplify_eq; eauto.
  - unfold AddPod. by rewrite Hns.
Qed.

Lemma keyed_DeletePod (m : mountPodManager) (pod : Pod) :
  keyed (pods m) -> keyed (pods (DeletePod m pod)).
Proof.
  intros Hk. unfold DeletePod.
  destruct (String.eqb (Namespace pod) (namespace m)); cbn [negb]; [|done].
  intros name uid p. cbn [pods withPods]. rewrite podIn_deletePodLocked.
  case_decide; [done|]. apply Hk.
Qed.

Lemma reachable_keyed (m : mountPodManager) : reachable m -> keyed (pods m).
Proof.
  induction 1.
  - intros name uid p. unfold podIn. simpl. by rewrite lookup_empty.
  - by apply keyed_AddPod.
  - by apply keyed_DeletePod.
Qed.

Lemma GetPod_member (pick : nat) (m : mountPodManager) (name : string) (p : Pod) :
  GetPod pick m name = Some p -> exists uid, podIn (pods m) name uid = Some p.
Proof.
  unfold GetPod, podIn. destruct (pods m !! name) as [ps|]; [|done].
  simpl. intros H. apply fmap_Some in H as ([uid p'] & Hl & ->).
  exists uid. apply elem_of_map_to_list. eapply list_elem_of_lookup_2. exact Hl.
Qed.

Lemma GetPod_any (m : mountPodManager) (name uid : string) (p : Pod) :
  podIn (pods m) name uid = Some p -> exists pick, GetPod pick m name = Some p.
Proof.
  unfold GetPod, podIn. destruct (pods m !! name) as [ps|]; [|done].
  simpl. intros H. apply elem_of_map_to_list in H.
  apply list_elem_of_lookup_1 in H as [i Hi].
  exists i. rewrite Nat.mod_small by (by eapply lookup_lt_Some).
  by rewrite Hi.
Qed.

(** C9.  For a pod of the manager's namespace, [AddPod] leaves the pod's
    UID under exactly the registered plugin names for which the pod has
    the label "mount.<pluginName>" with value "true", and only if the pod
    is Running: memberships of that UID from before are gone, and other
    UIDs are untouched.  So after [AddPod] of a pod in phase Succeeded the
    pod is in no plugin mapping and [GetPod] returns it for no plugin,
    whatever entry the iteration picks. *)
Theorem AddPod_registers_running_labelled (m : mountPodManager) (pod : Pod) :
  reachable m ->
  Namespace pod = namespace m ->
  let m' := AddPod m pod in
  (forall name uid,
      podIn (pods m') name uid =
      if decide (uid = UID pod) then
        if decide (Phase pod = PodRunning /\ name ∈ pluginMgr m /\
                   label pod ("mount." +:+ name) = "true")
        then Some pod else None
      else podIn (pods m) name uid) /\
  (Phase pod = PodSucceeded ->
   forall name,
     podIn (pods m') name (UID pod) = None /\
     forall pick p, GetPod pick m' name = Some p -> UID p <> UID pod).
Proof.
  intros Hreach Hns m'. split.
  - intros name uid. by apply podIn_AddPod.
  - intros Hph name.
    assert (Hnone : podIn (pods m') name (UID pod) = None).
    { subst m'. rewrite podIn_AddPod by done. rewrite decide_True by done.
      rewrite decide_False; [done|]. rewrite Hph. by intros [? _]. }
    split; [done|].
    intros pick p Hget Huid.
    apply GetPod_member in Hget as [uid Hin].
    pose proof (reachable_keyed m' (reach_add m pod Hreach) name uid p Hin) as Hk.
    congruence.
Qed.
End MountPods.

Lemma AddPod_registers_running_labelled_witness :
  Volume.podIn (Volume.pods Volume.mgrWithPod1) Volume.fakePluginName1 "1" =
  Some Volume.pod1 /\
  Volume.podIn (Volume.pods (Volume.AddPod Volume.mgrWithPod1
                                           Volume.pod1Succeeded))
               Volume.fakePluginName1 "1" = None.
Proof.
  split; [vm_compute; reflexivity|].
  apply (AddPod_registers_running_labelled Volume.mgrWithPod1
                                           Volume.pod1Succeeded).
  - apply Volume.reach_add, Volume.reach_new.
  - reflexivity.
  - reflexivity.
Defined.

(** ** The socket of a volume plugin *)

Section SocketPath.
Import GoStrings GoPath Kubelet.

Lemma append_String (x : ascii) (a b : string) :
  String x a +:+ b = String x (a +:+ b).
Proof. reflexivity. Qed.

Lemma append_empty (b : string) : "" +:+ b = b.
Proof. reflexivity. Qed.

Lemma append_nonempty_r (a b : string) : b <> "" -> a +:+ b <> "".
Proof. intros Hb. destruct a; [by rewrite append_empty|by rewrite append_String]. Qed.

Lemma string_app_assoc (a b c : string) : (a +:+ b) +:+ c = a +:+ (b +:+ c).
Proof.
  induction a as [|x a IH]; [done|]. by rewrite !append_String, IH.
Qed.

Lemma Split_nonempty (s : string) (sep : ascii) : Split s sep <> [].
Proof.
  destruct s as [|c s]; [done|]. simpl.
  destruct (Ascii.eqb c sep); [done|]. by destruct (Split s sep).
Qed.

Lemma Split_app_sep (a b : string) (sep : ascii) :
  Split (a +:+ String sep b) sep = Split a sep ++ Split b sep.
Proof.
  induction a as [|c a IH].
  - rewrite append_empty. simpl. by rewrite Ascii.eqb_refl.
  - rewrite append_String. simpl.
    destruct (Ascii.eqb c sep); rewrite IH; [done|].
    pose proof (Split_nonempty a sep). by destruct (Split a sep).
Qed.

Lemma Split_sanitized (name : string) :
  Split (ReplaceAll name "/" "~") "/" = [ReplaceAll name "/" "~"].
Proof.
  induction name as [|c name IH]; [done|]. cbn [ReplaceAll Split].
  destruct (Ascii.eqb c "/") eqn:Hc.
  - change (Ascii.eqb "~" "/") with false. cbn iota. by rewrite IH.
  - rewrite Hc. by rewrite IH.
Qed.

Lemma concat_snoc (sep : string) (l : list string) (x : string) :
  l <> [] ->
  String.concat sep (l ++ [x]) = String.concat sep l +:+ sep +:+ x.
Proof.
  induction l as [|a l IH]; [done|]. intros _.
  destruct l as [|b l]; [done|].
  change (String.concat sep ((a :: b :: l) ++ [x]))
    with (a +:+ sep +:+ String.concat sep ((b :: l) ++ [x])).
  rewrite IH by done.
  change (String.concat sep (a :: b :: l))
    with (a +:+ sep +:+ String.concat sep (b :: l)).
  by rewrite !string_app_assoc.
Qed.

Lemma clean_elem_keeps (rooted : bool) (kept : list string) (e : string) :
  e <> "" -> e <> "." -> e <> ".." -> clean_elem rooted kept e = e :: kept.
Proof.
  intros H1 H2 H3. unfold clean_elem.
  apply String.eqb_neq in H1, H2, H3. by rewrite H1, H2, H3.
Qed.

Lemma HasPrefix_app (a b : string) :
  a <> "" -> HasPrefix (a +:+ b) "/" = HasPrefix a "/".
Proof.
  destruct a as [|c a]; [done|]. intros _. rewrite append_String.
  unfold HasPrefix. cbn [String.prefix]. destruct (ascii_dec "/" c); [|done].
  by destruct a, b.
Qed.

Lemma Clean_snoc (dir e : string) :
  dir <> "" -> e <> "" -> e <> "." -> e <> ".." ->
  Split e "/" = [e] ->
  Clean (dir +:+ "/plugin-sockets/" +:+ e) =
  Clean (dir +:+ "/plugin-sockets") +:+ "/" +:+ e.
Proof.
  intros Hdir H1 H2 H3 Hsplit. unfold Clean.
  assert (Hne : forall s, String.eqb (dir +:+ s) "" = false).
  { intros s. destruct dir; [done|]. done. }
  rewrite !Hne, !HasPrefix_app by done.
  change (dir +:+ "/plugin-sockets/" +:+ e)
    with (dir +:+ String "/" ("plugin-sockets" +:+ String "/" e)).
  change (dir +:+ "/plugin-sockets")
    with (dir +:+ String "/" "plugin-sockets").
  rewrite !Split_app_sep, Hsplit.
  change (Split "plugin-sockets" "/") with ["plugin-sockets"].
  rewrite !fold_left_app. cbn [fold_left].
  set (kept := fold_left (clean_elem (HasPrefix dir "/")) (Split dir "/") []).
  rewrite (clean_elem_keeps _ _ "plugin-sockets") by done.
  rewrite clean_elem_keeps by done.
  cbn [rev]. unfold GoStrings.Join.
  rewrite concat_snoc by (by destruct (rev kept)).
  destruct (HasPrefix dir "/").
  - by rewrite !string_app_assoc.
  - set (body := String.concat "/" (rev kept ++ ["plugin-sockets"])).
    assert (Hbody : body <> "").
    { subst body. destruct (rev kept) as [|k ks]; [done|].
      rewrite concat_snoc by done. by apply append_nonempty_r. }
    apply String.eqb_neq in Hbody as Hb. rewrite Hb.
    destruct (String.eqb (body +:+ "/" +:+ e) "") eqn:He; [|done].
    apply String.eqb_eq in He. by apply append_nonempty_r in He.
Qed.

(** X16.  The socket path of every plugin name whose sanitized form is
    neither empty nor "." nor "..": the plugin-sockets directory of the
    root, a slash and the sanitized name, hence inside that directory. *)
Theorem GetVolumePluginSocketPath_inside (rootDir pluginName : string) :
  let p := ReplaceAll pluginName "/" "~" in
  p <> "" -> p <> "." -> p <> ".." ->
  GetVolumePluginSocketPath rootDir pluginName =
  GoPath.Join [rootDir; "plugin-sockets"] +:+ "/" +:+ p /\
  insideDir (GoPath.Join [rootDir; "plugin-sockets"])
            (GetVolumePluginSocketPath rootDir pluginName).
Proof.
  intros p H1 H2 H3.
  assert (Heq : GetVolumePluginSocketPath rootDir pluginName =
                GoPath.Join [rootDir; "plugin-sockets"] +:+ "/" +:+ p).
  { unfold GetVolumePluginSocketPath. fold p. unfold GoPath.Join.
    cbn [dropEmpty].
    destruct (String.eqb rootDir "") eqn:Hr.
    - apply String.eqb_eq in Hr. subst rootDir. cbn [String.eqb].
      unfold GoStrings.Join. cbn [String.concat].
      unfold Clean.
      change ("plugin-sockets" +:+ "/" +:+ p)
        with ("plugin-sockets" +:+ String "/" p).
      rewrite Split_app_sep. subst p. rewrite Split_sanitized.
      set (p := ReplaceAll pluginName "/" "~") in *.
      cbn -[p clean_elem]. 
      rewrite (clean_elem_keeps _ _ "plugin-sockets") by done.
      rewrite clean_elem_keeps by done. cbn. done.
    - unfold GoStrings.Join. cbn [String.concat].
      apply String.eqb_neq in Hr.
      change (rootDir +:+ "/" +:+ "plugin-sockets" +:+ "/" +:+ p)
        with (rootDir +:+ "/plugin-sockets/" +:+ p).
      change (rootDir +:+ "/" +:+ "plugin-sockets")
        with (rootDir +:+ "/plugin-sockets").
      apply Clean_snoc; try done. subst p. apply Split_sanitized. }
  split; [done|]. rewrite Heq. by exists p.
Qed.
End SocketPath.

(** C8 at its failing input: for the plugin name "..", which has no "/"
    to replace, the socket path is the root directory itself and lies
    outside the directory of plugin sockets. *)
Theorem GetVolumePluginSocketPath_dotdot_escapes :
  Kubelet.GetVolumePluginSocketPath "/var/lib/kubelet" ".." =
  "/var/lib/kubelet" /\
  GoPath.Join ["/var/lib/kubelet"; "plugin-sockets"] =
  "/var/lib/kubelet/plugin-sockets" /\
  ~ Kubelet.insideDir "/var/lib/kubelet/plugin-sockets"
      (Kubelet.GetVolumePluginSocketPath "/var/lib/kubelet" "..").
Proof.
  split_and!; [reflexivity..|].
  intros (rest & _ & H). vm_compute in H. discriminate H.
Qed.

(** * Further properties of the code *)

(** ** Mounting without a bind *)

Section MountOnce.
Import GoStrings Mount.
Context {E : Env}.

Lemma existsb_no_bind (options : list string) :
  ~ In "bind" options -> existsb (String.eqb "bind") options = false.
Proof.
  intros H. destruct (existsb _ options) eqn:Hb; [|done].
  apply existsb_exists in Hb as (o & Ho & Heq).
  apply String.eqb_eq in Heq. by subst.
Qed.

Lemma doMount_via (mounterPath mountCmd source target fstype : string)
      (options : list string) (w : World E) (tr : list event) :
  let args := makeMountArgs source target fstype options in
  let cmd := if 0 <? len mounterPath then mounterPath else mountCmd in
  let args' := if 0 <? len mounterPath then mountCmd :: args else args in
  let answer := command E OsExec cmd args' w in
  let r := doMount mounterPath mountCmd source target fstype options (w, tr) in
  invocations (trace_of r) = invocations tr ++ [(OsExec, cmd, args')] /\
  mountCalls (trace_of r) = mountCalls tr /\
  world_of r = snd answer /\
  fst r = match snd (fst answer) with
          | None => None
          | Some e => Some (mountFailed e cmd source target fstype
                                        options (fst (fst answer)))
          end.
Proof.
  intros args cmd args' answer r. subst r answer cmd args' args.
  unfold doMount.
  destruct (0 <? len mounterPath);
    unfold bind, glog, emit, runCommand, ret, trace_of, world_of; simpl;
    match goal with
    | |- context [command E OsExec ?c ?a w] =>
        destruct (command E OsExec c a w) as [[output [e|]] w']
    end; simpl;
    rewrite ?invocations_app, ?mountCalls_app; simpl;
    rewrite ?app_nil_r; done.
Qed.

(** X1.  A [Mount] whose options do not ask for a bind mount runs the
    mount command exactly once, with the caller's options unchanged.  The
    local mounter runs the mounter binary with "mount" as first argument
    only for the filesystem types that need a mounter and only when a
    mounter path is configured, and [mount] itself otherwise; the exec
    mounter always runs [mount] through its [Exec].  Either returns nil
    exactly when that command succeeded. *)
Theorem Mount_without_bind (mounter : Mounter.t)
        (source target fstype : string) (options : list string)
        (w : World E) (tr : list event) :
  ~ In "bind" options ->
  let args := makeMountArgs source target fstype options in
  let containerized :=
    (bool_decide (fstype ∈ fsTypesNeedMounter)
     && (0 <? len (Mounter.mounterPath mounter)))%bool in
  let cmd := if containerized then Mounter.mounterPath mounter else "mount" in
  let args' := if containerized then "mount" :: args else args in
  let via := MountExec defaultExecTimeout in
  let local := Mounter.Mount mounter source target fstype options (w, tr) in
  let remote := execMounter.Mount source target fstype options (w, tr) in
  (invocations (trace_of local) = invocations tr ++ [(OsExec, cmd, args')] /\
   (fst local = None <-> snd (fst (command E OsExec cmd args' w)) = None)) /\
  (invocations (trace_of remote) = invocations tr ++ [(via, "mount", args)] /\
   (fst remote = None <-> snd (fst (command E via "mount" args w)) = None)).
Proof.
  intros Hno args containerized cmd args' via local remote. split.
  - subst local. unfold Mounter.Mount.
    rewrite isBind_spec, (existsb_no_bind _ Hno).
    change defaultMountCommand with "mount".
    subst cmd args' containerized.
    destruct (bool_decide (fstype ∈ fsTypesNeedMounter)); cbn [andb].
    + pose proof (doMount_via (Mounter.mounterPath mounter) "mount"
                              source target fstype options w tr) as H.
      cbn zeta in H. fold args in H.
      destruct (0 <? len (Mounter.mounterPath mounter));
        destruct H as (Hinv & _ & _ & Hres); rewrite Hinv, Hres;
        (split; [done|]);
        match goal with
        | |- context [command E OsExec ?c ?a w] =>
            by destruct (command E OsExec c a w) as [[output [e|]] w']
        end.
    + pose proof (doMount_via "" "mount" source target fstype options w tr)
        as H.
      cbn zeta in H. fold args in H. change (0 <? len "") with false in H.
      cbn iota in H. destruct H as (Hinv & _ & _ & Hres).
      rewrite Hinv, Hres. split; [done|].
      by destruct (command E OsExec "mount" args w) as [[output [e|]] w'].
  - subst remote. unfold execMounter.Mount.
    rewrite isBind_spec, (existsb_no_bind _ Hno).
    pose proof (doExecMount_run source target fstype options w tr) as H.
    cbn zeta in H. fold args via in H. destruct H as (Hinv & _ & Hres).
    rewrite Hinv, Hres. split; [done|].
    by destruct (command E via "mount" args w) as [[output [e|]] w'].
Qed.

Lemma remountOptions_idem (options : list string) :
  remountOptions (remountOptions options) = remountOptions options.
Proof.
  unfold remountOptions. induction options as [|o l IH]; [done|].
  cbn [List.filter].
  destruct (negb (String.eqb o "bind" || String.eqb o "remount")) eqn:Hn;
    [|done].
  cbn [List.filter]. by rewrite Hn, IH.
Qed.

(** X2.  [isBind] reports a bind mount exactly when "bind" is among
    the options.  The remount options it makes are "remount" followed by
    the caller's options without "bind" and "remount", in their order:
    they never contain "bind", they contain every other option of the
    caller, and [isBind] of them asks for no bind mount and gives them
    back unchanged. *)
Theorem isBind_remount_options (options : list string) :
  (fst (isBind options) = true <-> In "bind" options) /\
  snd (isBind options) = "remount" :: remountOptions options /\
  ~ In "bind" (snd (isBind options)) /\
  (forall o, o <> "bind" -> o <> "remount" ->
             (In o (snd (isBind options)) <-> In o options)) /\
  isBind (snd (isBind options)) = (false, snd (isBind options)).
Proof.
  rewrite isBind_spec. cbn [fst snd].
  destruct (remountOptions_no_bind options) as [Hb Hr].
  split_and!.
  - split.
    + intros H. apply existsb_exists in H as (o & Ho & Heq).
      apply String.eqb_eq in Heq. by subst.
    + apply existsb_bind.
  - done.
  - intros [H|H]; [discriminate H|done].
  - intros o Hob Hor. unfold remountOptions. split.
    + intros [H|H]; [by subst|]. by apply filter_In in H as [H _].
    + intros H. right. apply filter_In. split; [done|].
      apply String.eqb_neq in Hob, Hor. by rewrite Hob, Hor.
  - rewrite isBind_spec. f_equal.
    + apply existsb_no_bind. intros [H|H]; [discriminate H|done].
    + f_equal. change (remountOptions ("remount" :: remountOptions options))
        with (remountOptions (remountOptions options)).
      apply remountOptions_idem.
Qed.
End MountOnce.

Lemma Mount_without_bind_witness :
  ~ In "bind" ["ro"] /\
  invocations
    (trace_of (Mounter.Mount (E := scripted) aMounter "srv:/export" "/mnt/a"
                             "nfs" ["ro"] (noCommands, []))) =
  [(OsExec, "/opt/mounter",
    ["mount"; "-t"; "nfs"; "-o"; "ro"; "srv:/export"; "/mnt/a"])] /\
  invocations
    (trace_of (execMounter.Mount (E := scripted) "srv:/export" "/mnt/a"
                                 "nfs" ["ro"] (noCommands, []))) =
  [(MountExec Mount.defaultExecTimeout, "mount",
    ["-t"; "nfs"; "-o"; "ro"; "srv:/export"; "/mnt/a"])].
Proof.
  assert (Hno : ~ In "bind" ["ro"]).
  { intros [H|[]]. discriminate H. }
  split; [exact Hno|].
  destruct (Mount_without_bind (E := scripted) aMounter "srv:/export" "/mnt/a"
              "nfs" ["ro"] noCommands [] Hno) as [[H1 _] [H2 _]].
  split; [exact H1 | exact H2].
Defined.

(** ** What the mount tables are read as *)

Section Tables.
Import GoStrings Mount.

Lemma readLines_from_noLF (tail : string) :
  noLF tail = true -> forall cur, readLines_from cur tail = [].
Proof.
  induction tail as [|c tail IH]; intros H cur; [done|].
  cbn [noLF] in H. apply andb_true_iff in H as [Hc Ht].
  cbn [readLines_from]. apply negb_true_iff in Hc. rewrite Hc. by apply IH.
Qed.

Lemma readLines_from_tail (content tail : string) :
  noLF tail = true ->
  forall cur,
    readLines_from cur (content +:+ tail) = readLines_from cur content.
Proof.
  intros Ht. induction content as [|c content IH]; intros cur.
  - rewrite append_empty. cbn [readLines_from]. by apply readLines_from_noLF.
  - rewrite append_String. cbn [readLines_from].
    destruct (Ascii.eqb c LF); by rewrite IH.
Qed.

(** X3.  Both readers of mount tables stop at the last newline: bytes
    that follow it, a line that is not terminated, change neither the
    hash and the mount points of [readProcMountsFrom] nor the entries of
    [parseMountInfo]. *)
Theorem text_after_last_newline_ignored
        (content tail : string) (out : option (list MountPoint)) :
  noLF tail = true ->
  readProcMountsFrom (content +:+ tail) out = readProcMountsFrom content out /\
  parsedInfo (content +:+ tail) = parsedInfo content.
Proof.
  intros Ht. unfold readProcMountsFrom, parsedInfo, readLines.
  by rewrite readLines_from_tail.
Qed.

Lemma Join_Split (s : string) (sep : ascii) :
  Join (Split s sep) (String sep "") = s.
Proof.
  unfold Join. induction s as [|c s IH]; [done|].
  cbn [Split]. destruct (Ascii.eqb c sep) eqn:Hc.
  - apply Ascii.eqb_eq in Hc. subst c.
    pose proof (Split_nonempty s sep) as Hne.
    destruct (Split s sep) as [|h t] eqn:Hs; [done|].
    change (String.concat (String sep "") ("" :: h :: t))
      with ("" +:+ String sep "" +:+ String.concat (String sep "") (h :: t)).
    by rewrite IH.
  - pose proof (Split_nonempty s sep) as Hne.
    destruct (Split s sep) as [|h t] eqn:Hs; [done|].
    destruct t as [|h' t].
    + cbn [String.concat] in *. by rewrite IH.
    + change (String.concat (String sep "") (String c h :: h' :: t))
        with (String c h +:+ String sep "" +:+ String.concat (String sep "") (h' :: t)).
      change (String.concat (String sep "") (h :: h' :: t))
        with (h +:+ String sep "" +:+ String.concat (String sep "") (h' :: t)) in IH.
      by rewrite append_String, IH.
Qed.

Lemma Fnv_write_app (a b : string) (h : Z) :
  Fnv.write h (a +:+ b) = Fnv.write (Fnv.write h a) b.
Proof.
  revert h. induction a as [|c a IH]; intros h; [done|].
  rewrite append_String. cbn [Fnv.write]. apply IH.
Qed.

Lemma readProcMounts_lines_sound (lines : list string) :
  forall h mps h' mps',
    readProcMounts_lines lines h (Some mps) = Ok (h', Some mps') ->
    h' = Fnv.write h (String.concat "" lines) /\
    exists new, mps' = mps ++ new /\ Forall2 parsedFrom lines new.
Proof.
  induction lines as [|line rest IH]; intros h mps h' mps' H.
  - cbn in H. inversion H; subst. split; [done|]. exists []. by rewrite app_nil_r.
  - cbn [readProcMounts_lines] in H.
    destruct (Fields line) as [|f0 [|f1 [|f2 [|f3 [|f4 [|f5 [|f6 fs]]]]]]] eqn:Hf;
      try discriminate.
    destruct (Atoi f4) as [freq|] eqn:H4; [|discriminate].
    destruct (Atoi f5) as [pass|] eqn:H5; [|discriminate].
    apply IH in H as (-> & new & -> & Hnew). split.
    + destruct rest as [|l2 rest]; [done|].
      change (String.concat "" (line :: l2 :: rest))
        with (line +:+ "" +:+ String.concat "" (l2 :: rest)).
      by rewrite append_empty, Fnv_write_app.
    + eexists (_ :: new). split; [by rewrite <- app_assoc|].
      constructor; [|done].
      exists f4, f5. cbn [Device Path Type_ Opts Freq Pass].
      by rewrite (Join_Split f3 ",").
Qed.

(** X4.  When [readProcMountsFrom] succeeds, the hash is FNV-1a over the
    lines it read, there is one mount point per line, and each line has
    exactly six fields: the device, the path, the type, the options of
    the mount point joined by commas, and the decimal frequency and pass
    number.  The pass that only hashes accepts the same content with the
    same hash. *)
Theorem readProcMountsFrom_sound (content : string) (h : Z)
        (mps : list MountPoint) :
  readProcMountsFrom content (Some []) = Ok (h, Some mps) ->
  h = Fnv.write Fnv.offset32 (String.concat "" (readLines content)) /\
  Forall2 parsedFrom (readLines content) mps /\
  readProcMountsFrom content None = Ok (h, None).
Proof.
  intros H. unfold readProcMountsFrom in *.
  pose proof (readProcMounts_lines_Some _ _ _ _ _ H) as [Hnone _].
  apply readProcMounts_lines_sound in H as (-> & new & -> & Hnew).
  done.
Qed.

(** X5.  When the mount table reads the same twice and its lines parse,
    [List] returns its mount points after exactly two reads of
    /proc/mounts, and does nothing else. *)
Theorem List_of_unchanged_table (contents : nat -> string)
        (mps : list MountPoint) :
  contents 1%nat = contents 0%nat ->
  tableMounts (contents 0%nat) = Some mps ->
  Mounter.List (E := scripted) (reading contents 0, []) =
  (Ok mps, (reading contents 2, replicate 2 (EvOpen procMountsPath))).
Proof.
  intros Hsame Hm. unfold Mounter.List, listProcMounts.
  unfold bind at 1. rewrite readProcMounts_reading.
  unfold tableMounts in Hm.
  destruct (readProcMountsFrom (contents 0%nat) (Some []))
    as [[h [mps'|]]|e] eqn:Hread; try discriminate.
  inversion Hm; subst mps'.
  pose proof (readProcMounts_lines_Some _ _ _ _ _ Hread) as [Hnone _].
  unfold readProcMountsFrom at 1. rewrite Hnone.
  cbn [listProcMounts_tries maxListTries]. unfold bind at 1.
  rewrite readProcMounts_reading, Hsame, Hread, Z.eqb_refl. done.
Qed.
End Tables.

Lemma text_after_last_newline_ignored_witness :
  Mount.readProcMountsFrom (tableLine "tmpfs" +:+ "proc /proc proc") None =
  Mount.readProcMountsFrom (tableLine "tmpfs") None.
Proof.
  apply (text_after_last_newline_ignored (tableLine "tmpfs")
                                         "proc /proc proc" None).
  reflexivity.
Defined.

Lemma readProcMountsFrom_sound_witness :
  Forall2 parsedFrom (GoStrings.readLines (tableLine "tmpfs")) [tmpfsAtMnt].
Proof.
  refine (proj1 (proj2 (readProcMountsFrom_sound (tableLine "tmpfs")
                          _ [tmpfsAtMnt] _))).
  vm_compute. reflexivity.
Defined.

Lemma List_of_unchanged_table_witness :
  Mounter.List (E := scripted) (reading steadyTable 0, []) =
  (Ok [tmpfsAtMnt],
   (reading steadyTable 2, replicate 2 (EvOpen Mount.procMountsPath))).
Proof.
  apply (List_of_unchanged_table steadyTable [tmpfsAtMnt]).
  - reflexivity.
  - vm_compute. reflexivity.
Defined.

Section MountInfoEntries.
Import GoStrings Mount.

Lemma Fields_from_nonempty (s : string) :
  forall cur, Forall (fun f => f <> "") (Fields_from cur s).
Proof.
  induction s as [|c s IH]; intros cur; cbn [Fields_from].
  - destruct (String.eqb cur "") eqn:Hc; [constructor|].
    apply String.eqb_neq in Hc. by repeat constructor.
  - destruct (isSpace c); [|apply IH].
    destruct (String.eqb cur "") eqn:Hc; [apply IH|].
    apply String.eqb_neq in Hc. constructor; [done|apply IH].
Qed.

Lemma optionalFields_spec (fields : list string) :
  ~ In "-" (optionalFields fields) /\
  exists rest, fields = optionalFields fields ++ rest /\
               (rest = [] \/ exists rest', rest = "-" :: rest').
Proof.
  induction fields as [|f fields IH]; cbn [optionalFields].
  - split; [by intros []|]. exists []. auto.
  - destruct (String.eqb f "-") eqn:Hf.
    + apply String.eqb_eq in Hf. subst. split; [by intros []|].
      exists ("-" :: fields). eauto.
    + apply String.eqb_neq in Hf. destruct IH as (Hno & rest & Hrest & Hend).
      split; [intros [H|H]; [by subst|done]|].
      exists rest. split; [|done]. cbn [app]. by f_equal.
Qed.

Lemma nth_lookup_string (l : list string) (i : nat) :
  (i < length l)%nat -> l !! i = Some (nth i l "").
Proof.
  revert i. induction l as [|x l IH]; intros i Hi; [simpl in Hi; lia|].
  destruct i; [done|]. simpl. apply IH. simpl in Hi. lia.
Qed.

Lemma parseMountInfo_lines_entries (lines : list string) :
  forall infos infos',
    parseMountInfo_lines lines infos = Ok infos' ->
    exists new, infos' = infos ++ new /\ Forall2 entryOf lines new.
Proof.
  induction lines as [|line rest IH]; intros infos infos' H.
  - cbn in H. inversion H; subst. exists []. by rewrite app_nil_r.
  - cbn [parseMountInfo_lines] in H.
    destruct (length (Fields line) <? 7)%nat eqn:Hlen; [discriminate|].
    apply Nat.ltb_ge in Hlen.
    apply IH in H as (new & -> & Hnew).
    eexists (_ :: new). split; [by rewrite <- app_assoc|].
    constructor; [|done]. unfold entryOf.
    cbn [root mountPoint optional].
    destruct (optionalFields_spec (drop 6 (Fields line))) as (Hno & Hrest).
    split_and!; try done.
    + apply nth_lookup_string. lia.
    + apply nth_lookup_string. lia.
    + pose proof (Fields_from_nonempty line "") as Hne.
      fold (Fields line) in Hne. rewrite Forall_forall in Hne.
      apply Hne. eapply list_elem_of_lookup_2. apply nth_lookup_string. lia.
Qed.

Lemma parseMountInfo_lines_error (lines : list string) :
  forall infos,
    (exists e, parseMountInfo_lines lines infos = Err e) <->
    Exists (fun line => (length (Fields line) < 7)%nat) lines.
Proof.
  induction lines as [|line rest IH]; intros infos.
  - cbn. split; [by intros [e H]|]. intros H. inversion H.
  - cbn [parseMountInfo_lines].
    destruct (length (Fields line) <? 7)%nat eqn:Hlen.
    + apply Nat.ltb_lt in Hlen. split; [|eauto]. intros _. by left.
    + apply Nat.ltb_ge in Hlen. rewrite IH. split.
      * intros H. by right.
      * intros H. inversion H; subst; [lia|done].
Qed.

(** X6.  [parseMountInfo] either returns one entry per line, in order,
    or fails because some line has fewer than seven fields.  The entry of
    a line has its fourth field as root and its fifth as mount point,
    which is never empty, and as optional fields those from the seventh
    up to the first "-", which is itself not among them. *)
Theorem parseMountInfo_entries (content : string) :
  match parsedInfo content with
  | Ok infos => Forall2 entryOf (readLines content) infos
  | Err _ =>
      Exists (fun line => (length (Fields line) < 7)%nat) (readLines content)
  end.
Proof.
  unfold parsedInfo.
  destruct (parseMountInfo_lines (readLines content) []) as [infos|e] eqn:H.
  - by apply parseMountInfo_lines_entries in H as (new & -> & Hnew).
  - apply (parseMountInfo_lines_error _ []). eauto.
Qed.
End MountInfoEntries.

(** ** Probing and formatting a disk *)

Section DiskFormat.
Import GoStrings Mount SafeFormatAndMount.
Context {E : Env}.

Lemma TrimSuffixLF_empty (s : string) :
  TrimSuffixLF s = "" -> s = "" \/ s = nl.
Proof.
  destruct s as [|c s]; [auto|]. cbn [TrimSuffixLF].
  destruct s as [|c' s].
  - destruct (Ascii.eqb c LF) eqn:Hc; [|done].
    apply Ascii.eqb_eq in Hc. subst. auto.
  - done.
Qed.

Lemma Split_single_empty (s : string) (sep : ascii) :
  Split s sep = [""] -> s = "".
Proof.
  intros H. rewrite <- (Join_Split s sep). by rewrite H.
Qed.

Lemma diskFormat_unformatted (output : string) :
  diskFormat output = "" <-> output = "" \/ output = nl.
Proof.
  split.
  - unfold diskFormat. intros H.
    destruct (Split (TrimSuffixLF output) LF) as [|l0 ls] eqn:Hs.
    { by apply Split_nonempty in Hs. }
    cbn [nth] in H.
    destruct (String.eqb l0 "") eqn:Hl; cbn [negb] in H.
    + apply String.eqb_eq in Hl. subst l0.
      destruct ls as [|l1 ls]; [|discriminate H].
      apply Split_single_empty in Hs. by apply TrimSuffixLF_empty.
    + apply String.eqb_neq in Hl. done.
  - by intros [->| ->].
Qed.

Lemma Split_noLF (line : string) : noLF line = true -> Split line LF = [line].
Proof.
  induction line as [|c line IH]; [done|]. cbn [noLF Split].
  destruct (Ascii.eqb c LF); [done|]. cbn [negb andb]. intros H.
  by rewrite IH.
Qed.

Lemma append_empty_r (a : string) : a +:+ "" = a.
Proof.
  induction a as [|c a IH]; [done|]. by rewrite append_String, IH.
Qed.

Lemma TrimSuffixLF_app (line rest : string) :
  TrimSuffixLF (line +:+ String LF rest) =
  line +:+ TrimSuffixLF (String LF rest).
Proof.
  induction line as [|c line IH]; [by rewrite !append_empty|].
  rewrite !append_String. cbn [TrimSuffixLF].
  destruct (line +:+ String LF rest) eqn:Hl.
  - by destruct line.
  - by rewrite IH.
Qed.

Lemma diskFormat_first_line (line rest : string) :
  noLF line = true -> line <> "" ->
  diskFormat (line +:+ nl +:+ rest) = line.
Proof.
  intros Hline Hne. unfold diskFormat, nl.
  rewrite append_String, append_empty, TrimSuffixLF_app.
  assert (Hhead : exists tl,
             Split (line +:+ TrimSuffixLF (String LF rest)) LF = line :: tl).
  { destruct rest as [|c rest].
    - cbn [TrimSuffixLF]. rewrite Ascii.eqb_refl.
      exists []. rewrite append_empty_r. by apply Split_noLF.
    - cbn [TrimSuffixLF]. rewrite Split_app_sep, Split_noLF by done. eauto. }
  destruct Hhead as [tl ->]. cbn [nth].
  apply String.eqb_neq in Hne. by rewrite Hne.
Qed.

(** X7.  [getDiskFormat] runs [lsblk -n -o FSTYPE disk] once and mounts
    nothing.  It passes an error of lsblk on.  Otherwise the format it
    reports is empty exactly when lsblk printed nothing or a single
    newline, and is the first line of the output when that line is not
    empty. *)
Theorem getDiskFormat_result (disk : string) (w : World E) (tr : list event) :
  let args := ["-n"; "-o"; "FSTYPE"; disk] in
  let r := getDiskFormat disk (w, tr) in
  invocations (trace_of r) = invocations tr ++ [(SafeExec, "lsblk", args)] /\
  mountCalls (trace_of r) = mountCalls tr /\
  match command E SafeExec "lsblk" args w with
  | ((_, Some e), w') => fst r = Err e /\ world_of r = w'
  | ((output, None), w') =>
      world_of r = w' /\
      exists format,
        fst r = Ok format /\
        (format = "" <-> output = "" \/ output = nl) /\
        (forall line rest,
            output = line +:+ nl +:+ rest -> noLF line = true ->
            line <> "" -> format = line)
  end.
Proof.
  intros args r. subst r. unfold getDiskFormat.
  unfold bind, glog, emit, runCommand, ret, trace_of, world_of. cbn [fst snd].
  fold args.
  destruct (command E SafeExec "lsblk" args w) as [[output [e|]] w'];
    cbn [fst snd]; rewrite !invocations_app, !mountCalls_app; cbn;
    rewrite ?app_nil_r.
  - done.
  - split_and!; try done. eexists. split; [done|]. split.
    + apply diskFormat_unformatted.
    + intros line rest -> Hline Hne. by apply diskFormat_first_line.
Qed.
End DiskFormat.

Section FormatAndMountOutcomes.
Import GoStrings Mount SafeFormatAndMount.
Context {E : Env}.

Ltac go_steps :=
  unfold bind, ret, glog, emit, runCommand, interfaceMount, openAndRead;
  cbn [fst snd].

Ltac answer :=
  match goal with
  | |- context [command ?E' ?v ?c ?a ?w] =>
      let out := fresh "out" in
      let err := fresh "err" in
      let w' := fresh "w" in
      destruct (command E' v c a w) as [[out err] w']; cbn [fst snd]
  | |- context [mountOp ?E' ?s ?t ?f ?o ?w] =>
      let err := fresh "merr" in
      let w' := fresh "w" in
      destruct (mountOp E' s t f o w) as [err w']; cbn [fst snd]
  end.

Ltac split_run :=
  repeat (cbn [fst snd]; first
    [ answer
    | match goal with
      | |- context [match ?x with _ => _ end] => is_var x; destruct x
      | |- context [if ?b then _ else _] => destruct b eqn:?
      end ]).

Ltac finish_trace :=
  cbn [fst snd];
  unfold mountCalls, invocations, logged;
  rewrite ?omap_app; cbn [omap list_omap mountCall invocation];
  rewrite ?app_nil_r, <- ?app_assoc; cbn [app].

Lemma checkFsck_not_fatal (source out : string) (err : option error)
      (w : World E) (tr : list event) :
  err <> Some (ExitError fsckErrorsUncorrected) ->
  exists logs,
    checkFsck source out err (w, tr) = (None, (w, tr ++ logs)) /\
    invocations logs = [] /\ mountCalls logs = [].
Proof.
  intros Hfatal. unfold checkFsck. go_steps.
  destruct err as [[|status| |]|];
    try (by eexists [_]); try (by exists []; rewrite app_nil_r).
  destruct (status =? fsckErrorsCorrected); [by eexists [_]|].
  destruct (status =? fsckErrorsUncorrected) eqn:H4.
  { apply Z.eqb_eq in H4. by subst. }
  destruct (fsckErrorsUncorrected <? status); [by eexists [_]|].
  by exists []; rewrite app_nil_r.
Qed.

Lemma checkFsck_run (source out : string) (err : option error)
      (w : World E) (tr : list event) :
  exists res logs,
    checkFsck source out err (w, tr) = (res, (w, tr ++ logs)) /\
    invocations logs = [] /\ mountCalls logs = [].
Proof.
  unfold checkFsck. go_steps.
  destruct err as [[|status| |]|];
    try (by eexists _, [_]); try (by eexists _, []; rewrite app_nil_r).
  destruct (status =? fsckErrorsCorrected); [by eexists _, [_]|].
  destruct (status =? fsckErrorsUncorrected).
  { by eexists _, []; rewrite app_nil_r. }
  destruct (fsckErrorsUncorrected <? status); [by eexists _, [_]|].
  by eexists _, []; rewrite app_nil_r.
Qed.

(** X8.  When the check before the mount is not fatal and the first
    mount succeeds, [formatAndMount] returns nil having run [fsck] and
    the one mount only: the disk is neither probed nor formatted. *)
Theorem formatAndMount_mounts_first_time
        (source target fstype : string) (options : list string)
        (w w1 w2 : World E) (fsckOut : string) (fsckErr : option error) :
  let opts := options ++ ["defaults"] in
  let r := formatAndMount source target fstype options (w, []) in
  command E SafeExec "fsck" ["-a"; source] w = ((fsckOut, fsckErr), w1) ->
  fsckErr <> Some (ExitError fsckErrorsUncorrected) ->
  mountOp E source target fstype opts w1 = (None, w2) ->
  fst r = None /\
  world_of r = w2 /\
  invocations (trace_of r) = [(SafeExec, "fsck", ["-a"; source])] /\
  mountCalls (trace_of r) = [(source, target, fstype, opts)].
Proof.
  intros opts r Hfsck Hfatal Hmount.
  subst r. unfold formatAndMount, trace_of, world_of.
  go_steps. rewrite Hfsck. cbn [fst snd].
  destruct (checkFsck_not_fatal source fsckOut fsckErr w1
              (([] ++ [EvLog (V 4) "Checking for issues with fsck on disk: %s"]) ++
               [EvRun SafeExec "fsck" ["-a"; source]]) Hfatal)
    as (logs & -> & Hl1 & Hl2).
  cbn [fst snd]. fold opts. rewrite Hmount. cbn [fst snd].
  rewrite !invocations_app, !mountCalls_app, Hl1, Hl2. done.
Qed.

(** X9.  When the first mount fails and [lsblk] fails, the error of
    lsblk is returned; when the disk holds a filesystem and the caller
    asked for none in particular or for the one it holds, the error of
    the mount is returned.  In both cases nothing is formatted and the
    mount is not retried. *)
Theorem formatAndMount_keeps_formatted_disk
        (source target fstype : string) (options : list string)
        (w w1 w2 w3 : World E) (fsckOut lsblkOut : string)
        (fsckErr lsblkErr : option error) (mountErr : error) :
  let opts := options ++ ["defaults"] in
  let r := formatAndMount source target fstype options (w, []) in
  let existing := diskFormat lsblkOut in
  command E SafeExec "fsck" ["-a"; source] w = ((fsckOut, fsckErr), w1) ->
  fsckErr <> Some (ExitError fsckErrorsUncorrected) ->
  mountOp E source target fstype opts w1 = (Some mountErr, w2) ->
  command E SafeExec "lsblk" ["-n"; "-o"; "FSTYPE"; source] w2
  = ((lsblkOut, lsblkErr), w3) ->
  (lsblkErr <> None \/ (existing <> "" /\ (fstype = "" \/ fstype = existing))) ->
  fst r = Some (match lsblkErr with Some e => e | None => mountErr end) /\
  world_of r = w3 /\
  invocations (trace_of r) =
  [(SafeExec, "fsck", ["-a"; source]);
   (SafeExec, "lsblk", ["-n"; "-o"; "FSTYPE"; source])] /\
  mountCalls (trace_of r) = [(source, target, fstype, opts)].
Proof.
  intros opts r existing Hfsck Hfatal Hmount Hlsblk Hcase.
  subst r. unfold formatAndMount, getDiskFormat, trace_of, world_of.
  go_steps. rewrite Hfsck. cbn [fst snd].
  destruct (checkFsck_not_fatal source fsckOut fsckErr w1
              (([] ++ [EvLog (V 4) "Checking for issues with fsck on disk: %s"]) ++
               [EvRun SafeExec "fsck" ["-a"; source]]) Hfatal)
    as (logs & -> & Hl1 & Hl2).
  cbn [fst snd]. fold opts. rewrite Hmount. cbn [fst snd].
  rewrite Hlsblk. cbn [fst snd].
  destruct lsblkErr as [e|]; cbn [fst snd].
  { rewrite !invocations_app, !mountCalls_app, Hl1, Hl2. done. }
  destruct Hcase as [Hcase|(Hex & Hfs)]; [done|]. fold existing.
  destruct (String.eqb existing "") eqn:He; [by apply String.eqb_eq in He|].
  assert (Hsame : ((len fstype =? 0) || String.eqb fstype existing)%bool = true).
  { rewrite len_zero. apply orb_true_iff.
    destruct Hfs as [->|Hfs]; [by left|right]. by apply String.eqb_eq. }
  rewrite Hsame. cbn [fst snd].
  rewrite !invocations_app, !mountCalls_app, Hl1, Hl2. done.
Qed.

(** X10.  [formatAndMount] runs a [mkfs] command exactly when the check
    was not fatal, the first mount failed, and lsblk succeeded and
    printed nothing or a single newline. *)
Theorem formatAndMount_formats_only_blank_disks
        (source target fstype : string) (options : list string)
        (w w1 w2 w3 : World E) (fsckOut lsblkOut : string)
        (fsckErr lsblkErr mountErr : option error) :
  let opts := options ++ ["defaults"] in
  let r := formatAndMount source target fstype options (w, []) in
  command E SafeExec "fsck" ["-a"; source] w = ((fsckOut, fsckErr), w1) ->
  mountOp E source target fstype opts w1 = (mountErr, w2) ->
  command E SafeExec "lsblk" ["-n"; "-o"; "FSTYPE"; source] w2
  = ((lsblkOut, lsblkErr), w3) ->
  (exists type args,
      In (SafeExec, "mkfs." +:+ type, args) (invocations (trace_of r))) <->
  fsckErr <> Some (ExitError fsckErrorsUncorrected) /\
  mountErr <> None /\ lsblkErr = None /\
  (lsblkOut = "" \/ lsblkOut = nl).
Proof.
  intros opts r Hfsck Hmount Hlsblk.
  rewrite <- diskFormat_unformatted.
  assert (Hno : forall type args rest,
             In (SafeExec, "mkfs." +:+ type, args)
                ((SafeExec, "fsck", ["-a"; source]) :: rest) ->
             rest = [] \/
             rest = [(SafeExec, "lsblk", ["-n"; "-o"; "FSTYPE"; source])] ->
             False).
  { intros type args rest [H|H] Hrest; [discriminate H|].
    destruct Hrest as [->| ->]; [done|].
    destruct H as [H|[]]. discriminate H. }
  subst r. unfold formatAndMount, checkFsck, getDiskFormat, trace_of.
  go_steps. rewrite Hfsck. cbn [fst snd].
  destruct fsckErr as [[|status| |]|].
  all: try destruct (Z.eqb_spec status fsckErrorsCorrected) as [E1|E1].
  all: try destruct (Z.eqb_spec status fsckErrorsUncorrected) as [E4|E4].
  all: try destruct (fsckErrorsUncorrected <? status) eqn:Egt.
  all: try (exfalso; unfold fsckErrorsCorrected, fsckErrorsUncorrected in *; lia).
  all: cbn [fst snd]; fold opts; rewrite ?Hmount; cbn [fst snd].
  all: destruct mountErr as [mErr|]; cbn [fst snd]; rewrite ?Hlsblk; cbn [fst snd].
  all: try destruct lsblkErr as [lErr|]; cbn [fst snd].
  all: try destruct (String.eqb_spec (diskFormat lsblkOut) "") as [Hblank|Hblank].
  all: split_run.
  all: finish_trace.
  all: solve [split;
    [ intros (ty & margs & Hin);
      first [ by exfalso; eapply Hno; [exact Hin|auto]
            | split_and!; try done; congruence ]
    | intros (H1 & H2 & H3 & H4);
      first [ congruence
            | by eexists _, _; right; right; left ] ] ].
Qed.

(** X11.  Whatever the outside answers, the commands of
    [formatAndMount] are a prefix of [fsck], [lsblk], [mkfs], in that
    order and each at most once, and its mounts a prefix of the first
    attempt and the retry with the formatted type; when it returns nil,
    the last thing it did was a mount. *)
Theorem formatAndMount_call_sequence
        (source target fstype : string) (options : list string)
        (w : World E) :
  let opts := options ++ ["defaults"] in
  let r := formatAndMount source target fstype options (w, []) in
  invocations (trace_of r) `prefix_of`
    [(SafeExec, "fsck", ["-a"; source]);
     (SafeExec, "lsblk", ["-n"; "-o"; "FSTYPE"; source]);
     (SafeExec, "mkfs." +:+ formatType fstype, formatArgs fstype source)] /\
  mountCalls (trace_of r) `prefix_of`
    [(source, target, fstype, opts);
     (source, target, formatType fstype, opts)] /\
  (fst r = None ->
   exists type, last (trace_of r) = Some (EvMount source target type opts)).
Proof.
  intros opts r. subst r.
  unfold formatAndMount, getDiskFormat, trace_of, formatArgs, formatType.
  go_steps. rewrite !len_zero. fold opts.
  destruct (command E SafeExec "fsck" ["-a"; source] w) as [[out err] w1].
  cbn [fst snd].
  destruct (checkFsck_run source out err w1
              (([] ++ [EvLog (V 4) "Checking for issues with fsck on disk: %s"]) ++
               [EvRun SafeExec "fsck" ["-a"; source]]))
    as (res & logs & -> & Hl1 & Hl2).
  destruct res as [fatal|]; split_run.
  all: rewrite ?last_snoc, !invocations_app, !mountCalls_app, ?Hl1, ?Hl2.
  all: cbn [invocations mountCalls omap list_omap invocation mountCall app].
  all: split_and!;
    [ eexists; reflexivity
    | eexists; reflexivity
    | first [ intros _; eexists; reflexivity | discriminate 1 ] ].
Qed.
End FormatAndMountOutcomes.

Lemma formatAndMount_mounts_first_time_witness :
  fst (SafeFormatAndMount.formatAndMount (E := scripted)
         "/dev/sdb" "/mnt/data" "ext4" ["rw"] (noCommands, [])) = None /\
  invocations
    (trace_of (SafeFormatAndMount.formatAndMount (E := scripted)
                 "/dev/sdb" "/mnt/data" "ext4" ["rw"] (noCommands, []))) =
  [(SafeExec, "fsck", ["-a"; "/dev/sdb"])].
Proof.
  edestruct (formatAndMount_mounts_first_time (E := scripted)
               "/dev/sdb" "/mnt/data" "ext4" ["rw"] noCommands)
    as (H1 & _ & H2 & _); [reflexivity | discriminate | reflexivity |].
  split; [exact H1 | exact H2].
Defined.

Lemma formatAndMount_keeps_formatted_disk_witness :
  fst (SafeFormatAndMount.formatAndMount (E := scripted)
         "/dev/sdb" "/mnt/data" "" ["rw"] (formattedDisk, [])) =
  Some (ExitError 32) /\
  invocations
    (trace_of (SafeFormatAndMount.formatAndMount (E := scripted)
                 "/dev/sdb" "/mnt/data" "" ["rw"] (formattedDisk, []))) =
  [(SafeExec, "fsck", ["-a"; "/dev/sdb"]);
   (SafeExec, "lsblk", ["-n"; "-o"; "FSTYPE"; "/dev/sdb"])].
Proof.
  edestruct (formatAndMount_keeps_formatted_disk (E := scripted)
               "/dev/sdb" "/mnt/data" "" ["rw"] formattedDisk)
    as (H1 & _ & H2 & _);
    [reflexivity | discriminate | reflexivity | reflexivity | |].
  - right. split; [discriminate | left; reflexivity].
  - split; [exact H1 | exact H2].
Defined.

Lemma formatAndMount_formats_only_blank_disks_witness :
  exists type args,
    In (SafeExec, "mkfs." +:+ type, args)
       (invocations
          (trace_of (SafeFormatAndMount.formatAndMount (E := scripted)
                       "/dev/sdb" "/mnt/data" "" ["rw"] (blankDisk, [])))).
Proof.
  edestruct (formatAndMount_formats_only_blank_disks (E := scripted)
               "/dev/sdb" "/mnt/data" "" ["rw"] blankDisk) as [_ H];
    [reflexivity | reflexivity | reflexivity |].
  apply H. split; [discriminate|]. split; [discriminate|].
  split; [reflexivity | right; reflexivity].
Defined.

(** ** The cache of mount pods *)

Section MountPodCache.
Import Volume.

Lemma AddPod_fields (m : mountPodManager) (pod : Pod) :
  pluginMgr (AddPod m pod) = pluginMgr m /\
  namespace (AddPod m pod) = namespace m.
Proof.
  unfold AddPod.
  destruct (negb (String.eqb (Namespace pod) (namespace m))); [done|].
  by destruct (negb (String.eqb (Phase pod) PodRunning)).
Qed.

Lemma DeletePod_fields (m : mountPodManager) (pod : Pod) :
  pluginMgr (DeletePod m pod) = pluginMgr m /\
  namespace (DeletePod m pod) = namespace m.
Proof.
  unfold DeletePod.
  by destruct (negb (String.eqb (Namespace pod) (namespace m))).
Qed.

Lemma reachable_mountPodOf (m : mountPodManager) :
  reachable m ->
  forall name uid pod,
    podIn (pods m) name uid = Some pod -> mountPodOf m name uid pod.
Proof.
  induction 1 as [names ns|m pod Hm IH|m pod Hm IH]; intros name uid p.
  - unfold podIn. simpl. by rewrite lookup_empty.
  - destruct (AddPod_fields m pod) as [Hp Hn].
    unfold mountPodOf. rewrite Hp, Hn.
    destruct (String.eqb (Namespace pod) (namespace m)) eqn:Hns.
    + apply String.eqb_eq in Hns. rewrite podIn_AddPod by done.
      case_decide as Hu.
      * case_decide as Hh; [|done]. intros [= <-].
        destruct Hh as (? & ? & ?). by subst.
      * apply IH.
    + unfold AddPod. rewrite Hns. apply IH.
  - destruct (DeletePod_fields m pod) as [Hp Hn].
    unfold mountPodOf. rewrite Hp, Hn. unfold DeletePod.
    destruct (String.eqb (Namespace pod) (namespace m)); cbn [negb]; [|apply IH].
    cbn [pods withPods]. rewrite podIn_deletePodLocked.
    case_decide; [done|apply IH].
Qed.

(** X12.  Whatever pods were added and deleted, a pod that [GetPod]
    returns for a plugin is in the watched namespace, is Running, has the
    label "mount.<pluginName>" with value "true", the plugin is one of
    the registered ones, and the pod is cached under its own UID. *)
Theorem GetPod_returns_running_mount_pod (m : mountPodManager)
        (pluginName : string) (pick : nat) (pod : Pod) :
  reachable m ->
  GetPod pick m pluginName = Some pod ->
  Namespace pod = namespace m /\
  Phase pod = PodRunning /\
  label pod ("mount." +:+ pluginName) = "true" /\
  pluginName ∈ pluginMgr m /\
  podIn (pods m) pluginName (UID pod) = Some pod.
Proof.
  intros Hm Hget. apply GetPod_member in Hget as [uid Hin].
  destruct (reachable_mountPodOf m Hm _ _ _ Hin) as (Hu & Hn & Hph & Hl & Hp).
  subst uid. done.
Qed.

Lemma GetPod_None (pick : nat) (m : mountPodManager) (pluginName : string) :
  GetPod pick m pluginName = None <->
  forall uid, podIn (pods m) pluginName uid = None.
Proof.
  unfold GetPod, podIn.
  destruct (pods m !! pluginName) as [ps|]; [|done]. simpl. split.
  - intros H uid. apply fmap_None in H.
    destruct (map_to_list ps) as [|e es] eqn:Hes.
    + apply map_to_list_empty_iff in Hes. subst. apply lookup_empty.
    + apply lookup_ge_None in H.
      pose proof (Nat.mod_upper_bound pick (length (e :: es))) as Hlt.
      simpl in *. lia.
  - intros H.
    assert (ps = ∅) as ->
        by (by apply map_eq; intros i; rewrite H, lookup_empty).
    by rewrite map_to_list_empty.
Qed.

(** X13.  [GetPod] returns nil exactly when no pod is cached for the
    plugin, be it that the plugin has no map or an empty one; and the
    pods it can return, over the orders of iteration, are exactly the
    cached pods of the plugin. *)
Theorem GetPod_nil_iff_no_pod (m : mountPodManager) (pluginName : string) :
  (forall pick,
      GetPod pick m pluginName = None <->
      forall uid, podIn (pods m) pluginName uid = None) /\
  (forall pod,
      (exists pick, GetPod pick m pluginName = Some pod) <->
      (exists uid, podIn (pods m) pluginName uid = Some pod)).
Proof.
  split.
  - intros pick. apply GetPod_None.
  - intros pod. split.
    + intros [pick H]. by eapply GetPod_member.
    + intros [uid H]. by eapply GetPod_any.
Qed.

(** X14.  [DeletePod] and [AddPod] ignore a pod of another namespace.
    For a pod of the watched namespace [DeletePod] removes the pod's UID
    from every plugin and touches no other UID, so that [GetPod] returns
    no pod of that UID afterwards. *)
Theorem DeletePod_forgets_uid (m : mountPodManager) (pod : Pod) :
  reachable m ->
  let m' := DeletePod m pod in
  (Namespace pod <> namespace m -> m' = m /\ AddPod m pod = m) /\
  (Namespace pod = namespace m ->
   (forall name uid,
       podIn (pods m') name uid =
       if decide (uid = UID pod) then None else podIn (pods m) name uid) /\
   (forall name pick p, GetPod pick m' name = Some p -> UID p <> UID pod)).
Proof.
  intros Hm m'. subst m'. unfold DeletePod, AddPod. split.
  - intros Hns. apply String.eqb_neq in Hns. by rewrite Hns.
  - intros Hns. rewrite Hns, String.eqb_refl. cbn [negb pods withPods].
    split; [intros; apply podIn_deletePodLocked|].
    intros name pick p Hget Hu.
    apply GetPod_member in Hget as [uid Hin]. cbn [pods withPods] in Hin.
    pose proof Hin as Hin'.
    rewrite podIn_deletePodLocked in Hin'. case_decide as Hd; [done|].
    apply (reachable_keyed m Hm) in Hin'. congruence.
Qed.

Lemma lookup_addToPlugins (pod : Pod) :
  forall names cache name,
    addToPlugins names pod cache !! name =
    if decide (name ∈ names /\ label pod ("mount." +:+ name) = "true")
    then Some (<[UID pod := pod]> (default ∅ (cache !! name)))
    else cache !! name.
Proof.
  induction names as [|n names IH]; intros cache name.
  - cbn [addToPlugins]. case_decide as H; [|done].
    destruct H as [H _]. by inversion H.
  - cbn [addToPlugins].
    destruct (String.eqb (label pod ("mount." +:+ n)) "true") eqn:Hl.
    + apply String.eqb_eq in Hl. rewrite IH.
      destruct (decide (n = name)) as [->|Hne].
      * rewrite lookup_insert_eq. cbn [from_option id].
        rewrite insert_insert_eq.
        rewrite (decide_True (P := name ∈ name :: names /\ _))
          by (split; [by left|done]).
        by case_decide.
      * rewrite lookup_insert_ne by done.
        apply decide_ext. rewrite elem_of_cons. intuition congruence.
    + rewrite IH. apply decide_ext. rewrite elem_of_cons.
      assert (n = name -> label pod ("mount." +:+ name) <> "true").
      { intros ->. intros H. rewrite H in Hl. done. }
      intuition (subst; tauto).
Qed.

(** X15.  [AddPod] is idempotent: adding the same pod a second time
    leaves the manager as it was after the first. *)
Theorem AddPod_idempotent (m : mountPodManager) (pod : Pod) :
  AddPod (AddPod m pod) pod = AddPod m pod.
Proof.
  unfold AddPod.
  destruct (String.eqb (Namespace pod) (namespace m)) eqn:Hns; cbn [negb].
  2:{ by rewrite Hns. }
  assert (Hdel : forall c, deletePodLocked (deletePodLocked c pod) pod
                           = deletePodLocked c pod).
  { intros c. unfold deletePodLocked. rewrite <- map_fmap_compose.
    apply map_fmap_ext. intros k ps _. simpl. apply delete_delete_eq. }
  destruct (String.eqb (Phase pod) PodRunning) eqn:Hph; cbn [negb].
  - cbn [namespace pods pluginMgr withPods]. rewrite Hns. cbn [negb].
    unfold withPods. cbn [namespace pods pluginMgr]. f_equal.
    apply map_eq. intros name.
    rewrite !lookup_addToPlugins.
    assert (Hin : deletePodLocked (addToPlugins (pluginMgr m) pod
                                     (deletePodLocked (pods m) pod)) pod !! name
                  = delete (UID pod) <$>
                    (if decide (name ∈ pluginMgr m /\
                                label pod ("mount." +:+ name) = "true")
                     then Some (<[UID pod := pod]>
                                  (default ∅ (deletePodLocked (pods m) pod !! name)))
                     else deletePodLocked (pods m) pod !! name)).
    { unfold deletePodLocked at 1. by rewrite lookup_fmap, lookup_addToPlugins. }
    rewrite Hin. clear Hin.
    case_decide as Hh.
    + cbn [fmap option_fmap option_map from_option id]. f_equal.
      rewrite insert_delete_eq. by rewrite insert_insert_eq.
    + unfold deletePodLocked. rewrite !lookup_fmap.
      destruct (pods m !! name) as [ps|]; simpl; [|done].
      by rewrite delete_delete_eq.
  - cbn [namespace pods pluginMgr withPods]. rewrite Hns. cbn [negb].
    unfold withPods. cbn [namespace pods pluginMgr]. by rewrite Hdel.
Qed.
End MountPodCache.


Lemma GetPod_returns_running_mount_pod_witness :
  Volume.Namespace Volume.pod1 = Volume.namespace Volume.mgrWithPod1 /\
  Volume.Phase Volume.pod1 = Volume.PodRunning /\
  Volume.label Volume.pod1 ("mount." +:+ Volume.fakePluginName1) = "true" /\
  Volume.fakePluginName1 ∈ Volume.pluginMgr Volume.mgrWithPod1 /\
  Volume.podIn (Volume.pods Volume.mgrWithPod1) Volume.fakePluginName1
               (Volume.UID Volume.pod1) = Some Volume.pod1.
Proof.
  apply (GetPod_returns_running_mount_pod Volume.mgrWithPod1
           Volume.fakePluginName1 0 Volume.pod1).
  - apply Volume.reach_add, Volume.reach_new.
  - vm_compute. reflexivity.
Defined.

Lemma DeletePod_forgets_uid_witness :
  Volume.podIn (Volume.pods (Volume.DeletePod Volume.mgrWithPod1 Volume.pod1))
               Volume.fakePluginName1 "1" = None.
Proof.
  edestruct (DeletePod_forgets_uid Volume.mgrWithPod1 Volume.pod1) as [_ H].
  - apply Volume.reach_add, Volume.reach_new.
  - destruct (H eq_refl) as [H1 _].
    exact (H1 Volume.fakePluginName1 "1").
Defined.


(** ** Sockets and the commands sent over them *)

Lemma GetVolumePluginSocketPath_inside_witness :
  Kubelet.GetVolumePluginSocketPath "/var/lib/kubelet" "kubernetes.io/nfs" =
  "/var/lib/kubelet/plugin-sockets/kubernetes.io~nfs" /\
  Kubelet.insideDir
    (GoPath.Join ["/var/lib/kubelet"; "plugin-sockets"])
    (Kubelet.GetVolumePluginSocketPath "/var/lib/kubelet" "kubernetes.io/nfs").
Proof.
  apply (GetVolumePluginSocketPath_inside "/var/lib/kubelet"
                                          "kubernetes.io/nfs");
    discriminate.
Defined.

Section RemoteExec.
Import GoStrings Kubelet VolumeExec.

Lemma int32_small (n : Z) : - 2 ^ 31 <= n < 2 ^ 31 -> int32 n = n.
Proof.
  intros H. unfold int32. rewrite Z.mod_small; lia.
Qed.


Lemma ReplaceAll_idem (s : string) :
  ReplaceAll (ReplaceAll s "/" "~") "/" "~" = ReplaceAll s "/" "~".
Proof.
  induction s as [|c s IH]; [done|]. cbn [ReplaceAll].
  destruct (Ascii.eqb c "/") eqn:Hc.
  - change (Ascii.eqb "~" "/") with false. cbn iota. by rewrite IH.
  - by rewrite Hc, IH.
Qed.

Lemma ReplaceAll_slash (a b : string) :
  ReplaceAll (a +:+ "/" +:+ b) "/" "~" <> a +:+ "/" +:+ b.
Proof.
  induction a as [|c a IH].
  - rewrite !append_empty. done.
  - rewrite !append_String. cbn [ReplaceAll]. intros H.
    injection H as _ H. done.
Qed.

(** X17.  Plugin names are not kept apart: a plugin name with a "/"
    and the different name with "~" in the place of every "/" have the
    same socket path. *)
Theorem GetVolumePluginSocketPath_shared (rootDir a b : string) :
  let pluginName := a +:+ "/" +:+ b in
  let other := ReplaceAll pluginName "/" "~" in
  other <> pluginName /\
  GetVolumePluginSocketPath rootDir other =
  GetVolumePluginSocketPath rootDir pluginName.
Proof.
  intros pluginName other. split.
  - apply ReplaceAll_slash.
  - unfold GetVolumePluginSocketPath. subst other.
    by rewrite ReplaceAll_idem.
Qed.
End RemoteExec.

(** ** Marking a mount shared, and malformed mount tables *)

Section MakeSharedOutcome.
Import GoStrings Mount.
Context {E : Env}.

(** X19.  When the path is detected as not shared and the bind mount
    succeeds, [doMakeShared] runs [--make-rshared] and returns nil if it
    succeeds and its failure otherwise; in both cases these two are the
    only commands: a bind mount whose marking failed is not undone. *)
Theorem doMakeShared_after_bind (fuel : nat)
        (path file mountCmd : string) (mountArgs : list string)
        (st : state E) (w1 w2 w3 : World E) (tr1 : list event)
        (out1 out2 : string) (err2 : option error) :
  let bindArgs := mountArgs ++ ["--bind"; path; path] in
  let rsharedArgs := mountArgs ++ ["--make-rshared"; path] in
  let r := doMakeShared fuel path file mountCmd mountArgs st in
  isShared fuel path file st = (Some (Ok false), (w1, tr1)) ->
  command E OsExec mountCmd bindArgs w1 = ((out1, None), w2) ->
  command E OsExec mountCmd rsharedArgs w2 = ((out2, err2), w3) ->
  fst r = Some (match err2 with
                | None => None
                | Some e => Some (Errorf "failed to make %s shared: %v"
                                         [FStr path; FErr e])
                end) /\
  world_of r = w3 /\
  invocations (trace_of r) =
  invocations tr1 ++ [(OsExec, mountCmd, bindArgs);
                      (OsExec, mountCmd, rsharedArgs)] /\
  mountCalls (trace_of r) = mountCalls tr1.
Proof.
  intros bindArgs rsharedArgs r Hs Hb Hr. subst r.
  unfold doMakeShared, bind. rewrite Hs.
  unfold glog, emit, ret, runCommand, trace_of, world_of.
  cbn [fst snd]. fold bindArgs rsharedArgs. rewrite Hb. cbn [fst snd].
  rewrite Hr. cbn [fst snd].
  destruct err2 as [e|]; cbn [fst snd];
    rewrite !invocations_app, !mountCalls_app; cbn;
    by rewrite ?app_nil_r, <- ?app_assoc.
Qed.
End MakeSharedOutcome.

Lemma doMakeShared_after_bind_witness :
  fst (Mounter.MakeShared (E := scripted) 3 "/var/lib/kubelet"
         (rsharedRefused, [])) =
  Some (Some (Errorf "failed to make %s shared: %v"
                     [FStr "/var/lib/kubelet"; FErr (ExitError 32)])) /\
  invocations
    (trace_of (Mounter.MakeShared (E := scripted) 3 "/var/lib/kubelet"
                 (rsharedRefused, []))) =
  [(OsExec, "mount", ["--bind"; "/var/lib/kubelet"; "/var/lib/kubelet"]);
   (OsExec, "mount", ["--make-rshared"; "/var/lib/kubelet"])].
Proof.
  edestruct (doMakeShared_after_bind (E := scripted) 3 "/var/lib/kubelet"
               Mount.procMountInfoPath Mount.defaultMountCommand []
               (rsharedRefused, []))
    as (H1 & _ & H2 & _);
    [vm_compute; reflexivity | vm_compute; reflexivity
     | vm_compute; reflexivity |].
  split; [exact H1 | exact H2].
Defined.

Section TableErrors.
Import GoStrings Mount.

Lemma readProcMounts_lines_rejects_hashing (lines : list string) :
  forall h,
    (exists e, readProcMounts_lines lines h None = Err e) <->
    Exists (fun line => length (Fields line) <> 6%nat) lines.
Proof.
  induction lines as [|line rest IH]; intros h.
  - cbn. split; [by intros [e H]|]. intros H. inversion H.
  - cbn [readProcMounts_lines]. rewrite Exists_cons.
    destruct (Fields line) as [|f0 [|f1 [|f2 [|f3 [|f4 [|f5 [|f6 fs]]]]]]];
      try (split; [intros _; left; simpl; lia | eauto]).
    rewrite IH. split; [by right|]. intros [H|H]; [done|done].
Qed.

Lemma readProcMounts_lines_rejects_parsing (lines : list string) :
  forall h mps,
    (exists e, readProcMounts_lines lines h (Some mps) = Err e) <->
    Exists (fun line =>
              length (Fields line) <> 6%nat \/
              Atoi (nth 4 (Fields line) "") = None \/
              Atoi (nth 5 (Fields line) "") = None) lines.
Proof.
  induction lines as [|line rest IH]; intros h mps.
  - cbn. split; [by intros [e H]|]. intros H. inversion H.
  - cbn [readProcMounts_lines]. rewrite Exists_cons.
    destruct (Fields line) as [|f0 [|f1 [|f2 [|f3 [|f4 [|f5 [|f6 fs]]]]]]];
      try (split; [intros _; left; left; simpl; lia | eauto]).
    cbn [nth].
    destruct (Atoi f4) as [freq|]; [|split; [intros _; left; auto | eauto]].
    destruct (Atoi f5) as [pass|]; [|split; [intros _; left; auto | eauto]].
    rewrite IH. split; [by right|].
    intros [[H|[H|H]]|H]; done.
Qed.

(** X20.  [readProcMountsFrom] fails exactly when some line is
    malformed.  For the pass that only hashes that is a line that does
    not have six fields; for the pass that collects the mount points it
    is also a line whose frequency or pass number is not a decimal
    integer. *)
Theorem readProcMountsFrom_rejects (content : string) :
  ((exists e, readProcMountsFrom content None = Err e) <->
   Exists (fun line => length (Fields line) <> 6%nat) (readLines content)) /\
  ((exists e, readProcMountsFrom content (Some []) = Err e) <->
   Exists (fun line =>
             length (Fields line) <> 6%nat \/
             Atoi (nth 4 (Fields line) "") = None \/
             Atoi (nth 5 (Fields line) "") = None) (readLines content)).
Proof.
  unfold readProcMountsFrom. split.
  - apply readProcMounts_lines_rejects_hashing.
  - apply readProcMounts_lines_rejects_parsing.
Qed.
End TableErrors.
